(** * manca: the diffusion-and-convergence loop of [cluster_graph]

    A shallow embedding of [cluster_graph] (src/manca/manca.py, lines 101-216)
    and the properties of its four parts: the diffusion of a seed's weight into
    the affinity matrix [adj], the selection of a cluster count, the sparsity
    of the cut, and the [delay]/[iters] bookkeeping of the [while] loop.

    Numbers (edge weights, matrix entries, silhouette scores) are kept
    abstract behind the class [Number], with two instances: exact integers,
    and the binary64 floats of Python's [float] and numpy's [float64].
    What a property needs of the arithmetic is in its statement: most hold
    for any [Number]; those about [==] on matrix entries, and those saying
    that a run does not raise, are stated for float weights.  The calls
    into [random], [numpy.random] and [sklearn] are the fields of the
    record [Externals]. *)

From Stdlib Require Import ZArith String Lia Floats.
From stdpp Require Import base option list relations.

(** ** Python values and exceptions *)

Inductive PyExn :=
  | IndexError | KeyError | TypeError | UnboundLocalError | ValueError | NetworkXError.

Inductive Result (A : Type) :=
  | Ok (a : A)
  | Err (e : PyExn).
Arguments Ok {A} a.
Arguments Err {A} e.

Definition bind {A B} (m : Result A) (k : A -> Result B) : Result B :=
  match m with
  | Ok a => k a
  | Err e => Err e
  end.

Notation "'do' x <- m ; k" := (bind m (fun x => k))
  (at level 10, x name, m at level 100, k at level 200).
Notation "'do' ' p <- m ; k" := (bind m (fun x => match x with p => k end))
  (at level 10, p pattern, m at level 100, k at level 200).

(** [for x in l: acc = f acc x], where the body may raise. *)
Fixpoint for_each {A B} (f : B -> A -> Result B) (l : list A) (acc : B) : Result B :=
  match l with
  | [] => Ok acc
  | x :: l' => do acc' <- f acc x; for_each f l' acc'
  end.

(** The arithmetic the code uses: the literals [0] and [1.0], [+], [*] and [>].
    The operations are total.  That is so of Python's floats, whose [+]
    and [*] overflow to an infinity; it is not of [int * float] (line 148
    with an integer weight), which raises [OverflowError] for an integer
    too large to convert.  No instance below covers such weights. *)
Class Number (W : Type) := {
  zero : W;
  one : W;
  add : W -> W -> W;
  mul : W -> W -> W;
  gt : W -> W -> bool
}.

#[export] Instance Z_Number : Number Z :=
  {| zero := 0%Z; one := 1%Z; add := Z.add; mul := Z.mul; gt := Z.gtb |}.

(** Python's [float] and the entries of a numpy [float64] array: IEEE 754
    binary64 numbers.  [+] and [*] round and never raise; [x > y] is
    false as soon as an operand is NaN. *)
#[export] Instance float_Number : Number float :=
  {| zero := 0%float; one := 1%float; add := PrimFloat.add; mul := PrimFloat.mul;
     gt := fun x y => PrimFloat.ltb y x |}.

(** ** Dictionaries

    A Python dict as the list of its items in insertion order: a key is
    stored once, and assigning to a stored key replaces its value in place. *)

Section Dict.
Context {K V : Type} `{EqDecision K}.

Fixpoint dict_get (k : K) (d : list (K * V)) : option V :=
  match d with
  | [] => None
  | (k', v) :: d' => if decide (k = k') then Some v else dict_get k d'
  end.

Fixpoint dict_set (k : K) (v : V) (d : list (K * V)) : list (K * V) :=
  match d with
  | [] => [(k, v)]
  | (k', v') :: d' =>
      if decide (k = k') then (k', v) :: d' else (k', v') :: dict_set k v d'
  end.

(** [d[k]] raises [KeyError] for a key that is not stored. *)
Definition dict_item (k : K) (d : list (K * V)) : Result V :=
  match dict_get k d with
  | Some v => Ok v
  | None => Err KeyError
  end.
End Dict.

(** ** The affinity matrix

    [np.zeros((n, n))] as a list of rows; [adj[i, j] += v] raises
    [IndexError] outside the matrix. *)

Abbreviation Matrix W := (list (list W)) (only parsing).

Section Matrix.
Context {W : Type} `{Number W}.

Definition zeros (n : nat) : Matrix W := replicate n (replicate n zero).

Definition entry (m : Matrix W) (i j : nat) : option W :=
  match m !! i with
  | Some row => row !! j
  | None => None
  end.

Definition add_at (m : Matrix W) (i j : nat) (v : W) : Result (Matrix W) :=
  match m !! i with
  | Some row =>
      match row !! j with
      | Some x => Ok (<[i := <[j := add x v]> row]> m)
      | None => Err IndexError
      end
  | None => Err IndexError
  end.

(** [m[i][j]] and [m[j][i]] hold the same value (or are both outside [m]). *)
Definition symmetric (m : Matrix W) : Prop :=
  forall i j, entry m i j = entry m j i.
End Matrix.

(** [x == y] on floats: the comparison of IEEE 754, false as soon as an
    operand is NaN, also when both are. *)
Definition float_eq (x y : float) : bool := PrimFloat.eqb x y.

(** [m[i][j] == m[j][i]] for all [i] and [j]. *)
Definition symmetric_eq (m : Matrix float) : Prop :=
  forall i j x y, entry m i j = Some x -> entry m j i = Some y -> float_eq x y = true.

(** ** Graphs

    A networkx graph as its adjacency dict-of-dicts: for every node, in
    insertion order, the dict of its neighbours; an edge's attribute dict
    is reduced to the value of its ['weight'] key, if it has one. *)

Record Graph (Node W : Type) := {
  adjacency : list (Node * list (Node * option W))
}.
Arguments adjacency {Node W} g.

Section GraphOps.
Context {Node W : Type} `{EqDecision Node}.

(** [list(graph.nodes)] *)
Definition nodes (g : Graph Node W) : list Node := (adjacency g).*1.

(** [graph.neighbors(n)]; networkx raises for a node that is not in the graph. *)
Definition neighbors (g : Graph Node W) (n : Node) : Result (list Node) :=
  match dict_get n (adjacency g) with
  | Some nbrs => Ok (nbrs.*1)
  | None => Err NetworkXError
  end.

(** [graph.get_edge_data(u, v)]: the attributes of the edge, [None]
    (the outer [option]) when there is no such edge. *)
Definition get_edge_data (g : Graph Node W) (u v : Node) : option (option W) :=
  match dict_get u (adjacency g) with
  | Some nbrs => dict_get v nbrs
  | None => None
  end.

(** [graph.get_edge_data(u, v)['weight']] *)
Definition edge_weight (g : Graph Node W) (u v : Node) : Result W :=
  match get_edge_data g u v with
  | Some (Some w) => Ok w
  | Some None => Err KeyError
  | None => Err TypeError
  end.

(** Lines 121-124: [adj_index] and its inverse [rev_index]. *)
Definition adj_index (g : Graph Node W) : list (Node * nat) :=
  foldl (fun d i =>
           match nodes g !! i with
           | Some n => dict_set n i d
           | None => d
           end) [] (seq 0 (length (nodes g))).

Definition rev_index (g : Graph Node W) : list (nat * Node) :=
  foldl (fun d '(k, v) => dict_set v k d) [] (adj_index g).
End GraphOps.

(** ** What the loop calls outside the module

    Every call is indexed by the number [r] of loop-body executions that
    came before it, so that random draws may differ from round to round.
    - [ext_choice r]: the draw behind [random.choice];
    - [ext_randint r i]: entry [i] of [np.random.randint(2, size=...)];
    - [ext_silhouette adj labels]: [silhouette_score], [None] when it
      raises [ValueError];
    - [ext_kmeans r call k adj]: [KMeans(k).fit_predict(adj)], which labels
      every row of [adj] (a function from the row to its label) or raises. *)

Inductive KMeansCall := Candidate | Refit.

Record Externals (W : Type) := {
  ext_choice : nat -> nat;
  ext_randint : nat -> nat -> nat;
  ext_silhouette : Matrix W -> list nat -> option W;
  ext_kmeans : nat -> KMeansCall -> nat -> Matrix W -> Result (nat -> nat)
}.
Arguments ext_choice {W} e r.
Arguments ext_randint {W} e r i.
Arguments ext_silhouette {W} e m labels.
Arguments ext_kmeans {W} e r call k m.

Definition missing_weight_msg : string :=
  "Edge did not have a weight attribute! Setting to 1.0".
Definition no_convergence_msg : string :=
  "Warning: algorithm did not converge.".

(** [random.choice(seq)] with draw [rnd]. *)
Definition choice {A} (rnd : nat) (l : list A) : Result A :=
  match l !! (rnd mod length l) with
  | Some x => Ok x
  | None => Err IndexError
  end.

(** ** Diffusion (lines 128-152) *)

Section Diffusion.
Context {Node W : Type} `{EqDecision Node} `{Number W}.
Variable graph : Graph Node W.

(** What the innermost loop updates. *)
Record Spread := {
  sp_adj : Matrix W;
  sp_stdout : list string;
  sp_new_upper : list (list (Node * W))
}.

(** Lines 142-147: the [try]/[except KeyError] around the weight. *)
Definition weight_or_default (nb new_nb : Node) (out : list string)
  : Result (W * list string) :=
  match edge_weight graph nb new_nb with
  | Ok w => Ok (w, out)
  | Err KeyError => Ok (one, out ++ [missing_weight_msg])
  | Err e => Err e
  end.

(** Lines 141-151, the body of [for new_nb in new_nbs]. *)
Definition spread_edge (node : Node) (nbs : list (Node * W)) (nb : Node)
    (s : Spread) (new_nb : Node) : Result Spread :=
  do '(weight, out) <- weight_or_default nb new_nb (sp_stdout s);
  do mag <- dict_item nb nbs;
  let next_diff := dict_set new_nb (mul weight mag) [] in
  do i <- dict_item node (adj_index graph);
  do j <- dict_item new_nb (adj_index graph);
  do adj1 <- add_at (sp_adj s) i j (mul weight mag);
  do adj2 <- add_at adj1 j i (mul weight mag);
  Ok {| sp_adj := adj2; sp_stdout := out;
        sp_new_upper := sp_new_upper s ++ [next_diff] |}.

(** Lines 138-151, the body of [for nb in nbs]. *)
Definition spread_node (node : Node) (nbs : list (Node * W))
    (s : Spread) (nb : Node) : Result Spread :=
  do new_nbs <- neighbors graph nb;
  for_each (spread_edge node nbs nb) new_nbs s.

(** Lines 137-151, the body of [for nbs in upper_diff]. *)
Definition spread_dict (node : Node) (s : Spread) (nbs : list (Node * W))
  : Result Spread :=
  for_each (spread_node node nbs) (nbs.*1) s.

(** Lines 134-152: [for i in range(diff_range)]. *)
Fixpoint hops (node : Node) (n : nat) (adj : Matrix W) (out : list string)
    (upper_diff : list (list (Node * W))) : Result (Matrix W * list string) :=
  match n with
  | O => Ok (adj, out)
  | S n' =>
      do s <- for_each (spread_dict node) upper_diff
                {| sp_adj := adj; sp_stdout := out; sp_new_upper := [] |};
      hops node n' (sp_adj s) (sp_stdout s) (sp_new_upper s)
  end.

(** Lines 130-152 for the seed [node]. *)
Definition diffuse (node : Node) (diff_range : Z) (adj : Matrix W)
    (out : list string) : Result (Matrix W * list string) :=
  let nbs := dict_set node one [] in
  hops node (Z.to_nat diff_range) adj out [nbs].
End Diffusion.

(** ** Cluster selection (lines 157-178) *)

Section Selection.
Context {W : Type} `{Number W}.
Variable ext : Externals W.

(** [np.argmax]: the index of the first occurrence of the maximum. *)
Fixpoint argmax_from (best_i : nat) (best : W) (i : nat) (l : list W) : nat :=
  match l with
  | [] => best_i
  | x :: l' =>
      if gt x best then argmax_from i x (S i) l'
      else argmax_from best_i best (S i) l'
  end.

Definition argmax (l : list W) : nat :=
  match l with
  | [] => 0
  | x :: l' => argmax_from 0 x 1 l'
  end.

(** The [try]/[except ValueError] around [silhouette_score]. *)
Definition score_or_zero (adj : Matrix W) (labels : list nat) : W :=
  match ext_silhouette ext adj labels with
  | Some s => s
  | None => zero
  end.

(** [KMeans(k).fit_predict(adj)]: one label for each row of [adj]. *)
Definition fit_predict (r : nat) (call : KMeansCall) (k : nat) (adj : Matrix W)
  : Result (list nat) :=
  do labelling <- ext_kmeans ext r call k adj;
  Ok (labelling <$> seq 0 (length adj)).

(** [np.random.randint(2, size=len(adj))] *)
Definition randomclust (r : nat) (adj : Matrix W) : list nat :=
  (fun i => ext_randint ext r i mod 2) <$> seq 0 (length adj).

(** Lines 168-177, the body of [for i in range(1, max_clusters+1)]. *)
Definition score_candidate (r : nat) (adj : Matrix W) (sh_score : list W) (i : nat)
  : Result (list W) :=
  do clusters <- fit_predict r Candidate i adj;
  Ok (sh_score ++ [score_or_zero adj clusters]).

(** Lines 159-178: the value of [topscore] after [np.argmax]. *)
Definition select (r : nat) (max_clusters : Z) (adj : Matrix W) : Result nat :=
  let sh_score := [score_or_zero adj (randomclust r adj)] in
  do sh_score <- for_each (score_candidate r adj)
                   (seq 1 (Z.to_nat max_clusters)) sh_score;
  Ok (argmax sh_score).
End Selection.

(** ** Sparsity of the cut (lines 183-201) *)

Section Sparsity.
Context {Node W : Type} `{EqDecision Node} `{Number W}.
Variable graph : Graph Node W.

(** [list(np.where(bestcluster == cluster_id)[0])] *)
Definition where_eq (bestcluster : list nat) (cluster_id : nat) : list nat :=
  filter (fun i => bestcluster !! i = Some cluster_id) (seq 0 (length bestcluster)).

(** Line 186.  [rev_index.get(item, item)] leaves an index without an
    entry as it is, an integer that is no node of the graph: it is not
    in [cluster.nodes] and no neighbour equals it, so it is dropped
    here.  [fit_predict] labels the rows of [adj], one for each node,
    and every such index has an entry. *)
Definition node_ids (bestcluster : list nat) (cluster_id : nat) : list Node :=
  omap (fun item => dict_get item (rev_index graph)) (where_eq bestcluster cluster_id).

(** [graph.subgraph(node_ids).nodes]: the nodes of the graph that are
    in [node_ids]. *)
Definition subgraph_nodes (ids : list Node) : list Node :=
  filter (fun n => n ∈ ids) (nodes graph).

(** Lines 194-201, the body of [for nb in nbs]. *)
Definition cut_edge (ids : list Node) (node : Node) (sparsity : Z) (nb : Node)
  : Result Z :=
  if bool_decide (nb ∈ ids) then Ok sparsity
  else
    do cut <- edge_weight graph node nb;
    if gt cut zero then Ok (sparsity + 1)%Z else Ok (sparsity - 1)%Z.

(** Lines 192-201, the body of [for node in cluster.nodes]. *)
Definition cut_node (ids : list Node) (sparsity : Z) (node : Node) : Result Z :=
  do nbs <- neighbors graph node;
  for_each (cut_edge ids node) nbs sparsity.

(** Lines 185-201, the body of [for cluster_id in set(bestcluster)]. *)
Definition cut_cluster (bestcluster : list nat) (sparsity : Z) (cluster_id : nat)
  : Result Z :=
  let ids := node_ids bestcluster cluster_id in
  for_each (cut_node ids) (subgraph_nodes ids) sparsity.

(** Lines 183-201.  The sum does not depend on the order in which the
    set of labels is visited. *)
Definition sparsity_of (bestcluster : list nat) : Result Z :=
  for_each (cut_cluster bestcluster) (remove_dups bestcluster) 0%Z.
End Sparsity.

(** ** The loop (lines 119-127 and 178-208) *)

(** The variable [bestcluster]: not yet assigned, [None], or an array of labels. *)
Inductive Binding :=
  | Unbound
  | PyNone
  | Labels (l : list nat).

(** The variables that live across rounds.  [rounds] is not a variable of
    the code: it counts the executions of the loop body and only selects
    the draws of [Externals]. *)
Record RunState (W : Type) := {
  delay : Z;
  adj : Matrix W;
  prev_sparsity : Z;
  iters : Z;
  bestcluster : Binding;
  stdout : list string;
  rounds : nat
}.
Arguments delay {W} r.
Arguments adj {W} r.
Arguments prev_sparsity {W} r.
Arguments iters {W} r.
Arguments bestcluster {W} r.
Arguments stdout {W} r.
Arguments rounds {W} r.

Inductive LoopResult (W : Type) :=
  | Exited (st : RunState W)     (* the loop condition became false *)
  | Failed (e : PyExn)           (* the body raised *)
  | Running (st : RunState W).   (* the condition still holds when the fuel is spent *)
Arguments Exited {W} st.
Arguments Failed {W} e.
Arguments Running {W} st.

Section Loop.
Context {W : Type}.
Variables limit iterations : Z.
(** Lines 128-178 of round [r]: diffusion and selection, giving the
    matrix, the output written so far and [topscore]. *)
Variable diffuse_select :
  nat -> Matrix W -> list string -> Result (Matrix W * list string * nat).
(** Lines 180-201 of round [r]: the clustering for [topscore] and its sparsity. *)
Variable cluster_cut : nat -> nat -> Matrix W -> Result (list nat * Z).

(** Lines 203-206. *)
Definition update_delay (prev_sparsity sparsity delay : Z) : Z :=
  let delay := if (prev_sparsity >? sparsity)%Z then 0%Z else delay in
  if (prev_sparsity =? sparsity)%Z then (delay + 1)%Z else delay.

(** One execution of the loop body, lines 128-208. *)
Definition loop_body (st : RunState W) : Result (RunState W) :=
  do '(adj1, out1, topscore) <- diffuse_select (rounds st) (adj st) (stdout st);
  if (topscore =? 0)%nat then
    Ok {| delay := delay st; adj := adj1; prev_sparsity := prev_sparsity st;
          iters := iters st; bestcluster := PyNone; stdout := out1;
          rounds := S (rounds st) |}
  else
    do '(labels, sparsity) <- cluster_cut (rounds st) topscore adj1;
    Ok {| delay := update_delay (prev_sparsity st) sparsity (delay st);
          adj := adj1; prev_sparsity := sparsity;
          iters := (iters st + 1)%Z; bestcluster := Labels labels;
          stdout := out1; rounds := S (rounds st) |}.

(** Line 127. *)
Definition loop_cond (st : RunState W) : bool :=
  (delay st <? limit)%Z && (iters st <? iterations)%Z.

Fixpoint while_loop (fuel : nat) (st : RunState W) : LoopResult W :=
  if loop_cond st then
    match fuel with
    | O => Running st
    | S fuel' =>
        match loop_body st with
        | Ok st' => while_loop fuel' st'
        | Err e => Failed e
        end
    end
  else Exited st.

(** One turn of the [while] loop, as a relation on its states. *)
Definition loop_step (st st' : RunState W) : Prop :=
  loop_cond st = true /\ loop_body st = Ok st'.

(** The body run from [st] computes the sparsity value [sparsity]
    (so [topscore] is not 0) and ends in [st']. *)
Definition round_yields (st : RunState W) (sparsity : Z) (st' : RunState W) : Prop :=
  exists adj1 out1 topscore labels,
    diffuse_select (rounds st) (adj st) (stdout st) = Ok (adj1, out1, topscore)
    /\ topscore <> 0
    /\ cluster_cut (rounds st) topscore adj1 = Ok (labels, sparsity)
    /\ loop_body st = Ok st'.

(** Successive executions of the body from [st] compute the values [l]. *)
Fixpoint rounds_yield (st : RunState W) (l : list Z) : Prop :=
  match l with
  | [] => True
  | sparsity :: l' =>
      exists st', round_yields st sparsity st' /\ rounds_yield st' l'
  end.
End Loop.

(** ** [cluster_graph] *)

(** The graph that is returned: the input graph, its ['Cluster'] node
    attribute, and what was written to [sys.stdout]. *)
Record Labelled (Node W : Type) := {
  lg_graph : Graph Node W;
  lg_cluster : list (Node * nat);
  lg_stdout : list string
}.
Arguments lg_graph {Node W} l.
Arguments lg_cluster {Node W} l.
Arguments lg_stdout {Node W} l.

Inductive CallResult (A : Type) :=
  | Returned (a : A)
  | Raised (e : PyExn)
  | NoResult.            (* the loop is still running when the fuel is spent *)
Arguments Returned {A} a.
Arguments Raised {A} e.
Arguments NoResult {A}.

Section ClusterGraph.
Context {Node W : Type} `{EqDecision Node} `{Number W}.
Variable ext : Externals W.
Variable graph : Graph Node W.
Variables limit diff_range max_clusters iterations : Z.

(** Lines 119-126. *)
Definition init : RunState W :=
  {| delay := 0; adj := zeros (length (nodes graph)); prev_sparsity := 0;
     iters := 0; bestcluster := Unbound; stdout := []; rounds := 0 |}.

(** Line 128: the seed of round [r], and its row in [adj]. *)
Definition seed (r : nat) : Result Node := choice (ext_choice ext r) (nodes graph).

Definition seed_index (r : nat) : option nat :=
  match seed r with
  | Ok node => dict_get node (adj_index graph)
  | Err _ => None
  end.

(** Lines 128-178. *)
Definition manca_diffuse_select (r : nat) (adj : Matrix W) (out : list string)
  : Result (Matrix W * list string * nat) :=
  do node <- seed r;
  do '(adj1, out1) <- diffuse graph node diff_range adj out;
  do topscore <- select ext r max_clusters adj1;
  Ok (adj1, out1, topscore).

(** Lines 180-201. *)
Definition manca_cluster_cut (r topscore : nat) (adj : Matrix W)
  : Result (list nat * Z) :=
  do labels <- fit_predict ext r Refit topscore adj;
  do sparsity <- sparsity_of graph labels;
  Ok (labels, sparsity).

Definition manca_body : RunState W -> Result (RunState W) :=
  loop_body manca_diffuse_select manca_cluster_cut.

Definition manca_loop : nat -> RunState W -> LoopResult W :=
  while_loop limit iterations manca_diffuse_select manca_cluster_cut.

Definition manca_step : RunState W -> RunState W -> Prop :=
  loop_step limit iterations manca_diffuse_select manca_cluster_cut.

(** [bestcluster[i]] *)
Definition subscript (b : Binding) (i : nat) : Result nat :=
  match b with
  | Unbound => Err UnboundLocalError
  | PyNone => Err TypeError
  | Labels l =>
      match l !! i with
      | Some c => Ok c
      | None => Err IndexError
      end
  end.

(** Lines 209-216. *)
Definition finish (st : RunState W) : Result (Labelled Node W) :=
  let out := if (iters st =? 1000)%Z then stdout st ++ [no_convergence_msg]
             else stdout st in
  do clusdict <- for_each (fun clusdict i =>
                    do c <- subscript (bestcluster st) i;
                    do n <- match nodes graph !! i with
                            | Some n => Ok n
                            | None => Err IndexError
                            end;
                    Ok (dict_set n c clusdict))
                  (seq 0 (length (nodes graph))) [];
  Ok {| lg_graph := graph; lg_cluster := clusdict; lg_stdout := out |}.

Definition cluster_graph (fuel : nat) : CallResult (Labelled Node W) :=
  match manca_loop fuel init with
  | Exited st =>
      match finish st with
      | Ok g => Returned g
      | Err e => Raised e
      end
  | Failed e => Raised e
  | Running _ => NoResult
  end.
End ClusterGraph.

(** ** The cut of a partition, in terms of the graph *)

Section Cut.
Context {Node W : Type} `{EqDecision Node}.
Variable graph : Graph Node W.

(** The label of the row of node [n]. *)
Definition cluster_of (bestcluster : list nat) (n : Node) : option nat :=
  match dict_get n (adj_index graph) with
  | Some i => bestcluster !! i
  | None => None
  end.

(** [v] is a neighbour of [u] over an edge with attributes [d], and
    the two are in different clusters. *)
Definition inter_cluster (bestcluster : list nat) (u v : Node) (d : option W) : Prop :=
  get_edge_data graph u v = Some d
  /\ cluster_of bestcluster u <> cluster_of bestcluster v.

(** Keys of a dict are distinct: the nodes, and each node's neighbours. *)
Definition dict_keys_distinct : Prop :=
  NoDup (nodes graph)
  /\ forall u nbrs, dict_get u (adjacency graph) = Some nbrs -> NoDup (nbrs.*1).
End Cut.

(** ** Inputs used below *)

(** The undirected graph on the nodes [0 .. n-1] with the given edges. *)
Definition undirected (n : nat) (edges : list (nat * nat * option Z)) : Graph nat Z :=
  {| adjacency :=
       (fun u => (u, omap (fun '(a, b, w) =>
                             if decide (a = u) then Some (b, w)
                             else if decide (b = u) then Some (a, w) else None)
                          edges)) <$> seq 0 n |}.

(** The directed graph (a [DiGraph]) on the nodes [0 .. n-1]. *)
Definition directed (n : nat) (edges : list (nat * nat * option Z)) : Graph nat Z :=
  {| adjacency :=
       (fun u => (u, omap (fun '(a, b, w) =>
                             if decide (a = u) then Some (b, w) else None)
                          edges)) <$> seq 0 n |}.

(** Two triangles joined by the edge 2-3, all weights 1. *)
Definition two_triangles : Graph nat Z :=
  undirected 6 [(0, 1, Some 1%Z); (0, 2, Some 1%Z); (1, 2, Some 1%Z);
                (2, 3, Some 1%Z);
                (3, 4, Some 1%Z); (3, 5, Some 1%Z); (4, 5, Some 1%Z)].

(** The same, but the edge 2-3 has no ['weight'] attribute. *)
Definition bridge_unweighted : Graph nat Z :=
  undirected 6 [(0, 1, Some 1%Z); (0, 2, Some 1%Z); (1, 2, Some 1%Z);
                (2, 3, None);
                (3, 4, Some 1%Z); (3, 5, Some 1%Z); (4, 5, Some 1%Z)].

(** Five nodes and no edge. *)
Definition isolated5 : Graph nat Z := undirected 5 [].

(** Six edges; five of them leave [{0, 1, 2}], four leave [{0, 1, 2, 3}]. *)
Definition fan : Graph nat Z :=
  directed 6 [(0, 3, Some 1%Z); (0, 4, Some 1%Z); (0, 5, Some 1%Z);
              (1, 3, Some 1%Z); (1, 4, Some 1%Z); (3, 4, Some 1%Z)].

Definition all_equal (l : list nat) : bool :=
  match l with
  | [] => true
  | x :: l' => forallb (Nat.eqb x) l'
  end.

(** A silhouette score for six rows: it raises for a single label, gives
    the two triangles 1 and everything else 0. *)
Definition triangle_silhouette (m : Matrix Z) (labels : list nat) : option Z :=
  if all_equal labels then None
  else if bool_decide (labels = [0; 0; 0; 1; 1; 1]) then Some 1%Z
  else Some 0%Z.

(** A k-means that finds the two triangles for [k = 2] and a single
    cluster otherwise. *)
Definition triangle_kmeans (r : nat) (call : KMeansCall) (k : nat) (m : Matrix Z)
  : Result (nat -> nat) :=
  Ok (fun i => if (k =? 2)%nat then i / 3 else 0).

(** Round [r] takes node [(first + r) mod 6] as seed; the random labels alternate. *)
Definition ext_triangles (first : nat) : Externals Z :=
  {| ext_choice := fun r => first + r;
     ext_randint := fun r i => i;
     ext_silhouette := triangle_silhouette;
     ext_kmeans := triangle_kmeans |}.

(** As [ext_triangles 0], but in every round after the first the random
    labels are those of the two triangles: the baseline then scores as
    much as the best candidate, and [np.argmax] returns its index 0. *)
Definition ext_tie : Externals Z :=
  {| ext_choice := fun r => r;
     ext_randint := fun r i => if (r =? 0)%nat then i else i / 3;
     ext_silhouette := triangle_silhouette;
     ext_kmeans := triangle_kmeans |}.

(** On a matrix of zeros every point is at distance 0 from every other:
    k-means returns a single label, and no labelling scores above 0. *)
Definition ext_flat (choices : nat -> nat) (labels : nat -> nat -> nat) : Externals Z :=
  {| ext_choice := choices;
     ext_randint := labels;
     ext_silhouette := fun m l => if all_equal l then None else Some 0%Z;
     ext_kmeans := fun r call k m => Ok (fun i => 0) |}.

(** For [fan]: the clustering found in the first three rounds is
    [{0, 1, 2}] against the rest; after that node 3 changes side. *)
Definition ext_fan : Externals Z :=
  {| ext_choice := fun r => r;
     ext_randint := fun r i => i;
     ext_silhouette := fun m l =>
       if all_equal l then None
       else if bool_decide (l = [0; 1; 0; 1; 0; 1]) then Some 0%Z else Some 1%Z;
     ext_kmeans := fun r call k m =>
       Ok (fun i => if (k =? 2)%nat
                    then (if (r <? 3)%nat then i / 3 else i / 4)
                    else 0) |}.

(** The run of [cluster_graph] on [two_triangles] with [ext_tie],
    [diff_range = 1] and [max_clusters = 2]: the states after the first
    round (seed 0, the two triangles are found) and after the second
    (seed 1, the baseline wins). *)
Definition tie_round1 : RunState Z :=
  {| delay := 0;
     adj := [[0; 1; 1; 0; 0; 0]; [1; 0; 0; 0; 0; 0]; [1; 0; 0; 0; 0; 0];
             [0; 0; 0; 0; 0; 0]; [0; 0; 0; 0; 0; 0]; [0; 0; 0; 0; 0; 0]]%Z;
     prev_sparsity := 2; iters := 1;
     bestcluster := Labels [0; 0; 0; 1; 1; 1]; stdout := []; rounds := 1 |}.

Definition tie_round2 : RunState Z :=
  {| delay := 0;
     adj := [[0; 2; 1; 0; 0; 0]; [2; 0; 1; 0; 0; 0]; [1; 1; 0; 0; 0; 0];
             [0; 0; 0; 0; 0; 0]; [0; 0; 0; 0; 0; 0]; [0; 0; 0; 0; 0; 0]]%Z;
     prev_sparsity := 2; iters := 1;
     bestcluster := PyNone; stdout := []; rounds := 2 |}.

(** ** Counting

    [ind P] is 1 when [P] holds and 0 otherwise; [Zsum c l] adds up [c]
    over [l]. *)

Definition ind (P : Prop) `{Decision P} : Z := if decide P then 1%Z else 0%Z.

Fixpoint Zsum {A} (c : A -> Z) (l : list A) : Z :=
  match l with
  | [] => 0%Z
  | x :: l' => (c x + Zsum c l')%Z
  end.

(** ** Well-formed graphs and matrices *)

Section Shapes.
Context {Node W : Type} `{EqDecision Node}.

(** Every neighbour of a node of the graph is a node of the graph. *)
Definition neighbours_are_nodes (graph : Graph Node W) : Prop :=
  forall u nbrs v,
    dict_get u (adjacency graph) = Some nbrs -> v ∈ nbrs.*1 -> v ∈ nodes graph.

(** [n] rows of [n] entries. *)
Definition square (n : nat) (m : Matrix W) : Prop :=
  length m = n /\ Forall (fun row => length row = n) m.
End Shapes.

(** The weight that lines 142-147 give to an edge with attributes [d]. *)
Definition weight_or_one {W : Type} `{Number W} (d : option W) : W := default one d.

(** ** The signed cut

    What a neighbour [v] of [u] over an edge with attributes [d] adds to
    the sparsity: nothing inside a cluster, otherwise 1 for a positive
    weight and -1 for any other. *)

Section SignedCut.
Context {Node W : Type} `{EqDecision Node} `{Number W}.
Variable graph : Graph Node W.
Variable bestcluster : list nat.

Definition sign_of (w : W) : Z := if gt w zero then 1%Z else (-1)%Z.

Definition pair_cut (u v : Node) (d : option W) : Z :=
  if decide (cluster_of graph bestcluster u = cluster_of graph bestcluster v)
  then 0%Z
  else match d with
       | Some w => sign_of w
       | None => 0%Z
       end.

Definition cut_score : Z :=
  Zsum (fun '(u, nbrs) => Zsum (fun '(v, d) => pair_cut u v d) nbrs)
       (adjacency graph).
End SignedCut.

(** A k-means that, for [k = 2], separates the nodes 4 and 5 from the
    others, with a silhouette score that prefers this clustering; round
    [r] takes node [(2 + r) mod 6] as seed. *)
Definition ext_split : Externals Z :=
  {| ext_choice := fun r => 2 + r;
     ext_randint := fun r i => i;
     ext_silhouette := fun m l =>
       if all_equal l then None
       else if bool_decide (l = [0; 0; 0; 0; 1; 1]) then Some 1%Z else Some 0%Z;
     ext_kmeans := fun r call k m => Ok (fun i => if (k =? 2)%nat then i / 4 else 0) |}.

(** ** Inputs with float weights *)

(** The undirected graph on the nodes [0 .. n-1] with the given edges,
    for weights of any kind. *)
Definition undirected_graph {W : Type} (n : nat) (edges : list (nat * nat * option W))
  : Graph nat W :=
  {| adjacency :=
       (fun u => (u, omap (fun '(a, b, w) =>
                             if decide (a = u) then Some (b, w)
                             else if decide (b = u) then Some (a, w) else None)
                          edges)) <$> seq 0 n |}.

(** Two triangles joined by the edge 2-3, with float weights. *)
Definition float_triangles : Graph nat float :=
  undirected_graph 6
    [(0, 1, Some 0.5%float); (0, 2, Some 1.5%float); (1, 2, Some 2%float);
     (2, 3, Some 0.25%float);
     (3, 4, Some 1%float); (3, 5, Some 0.75%float); (4, 5, Some 3%float)].

(** The same, but the edge 2-3 has no ['weight'] attribute. *)
Definition float_bridge_unweighted : Graph nat float :=
  undirected_graph 6
    [(0, 1, Some 0.5%float); (0, 2, Some 1.5%float); (1, 2, Some 2%float);
     (2, 3, None);
     (3, 4, Some 1%float); (3, 5, Some 0.75%float); (4, 5, Some 3%float)].

(** The cycle 0-1-2-3-0 with weights so large that the product of two of
    them overflows; the edge 3-2 is negative. *)
#[warnings="-inexact-float"]
Definition overflow_cycle : Graph nat float :=
  undirected_graph 4
    [(0, 1, Some 1e200%float); (1, 2, Some 1e200%float);
     (0, 3, Some 1e200%float); (3, 2, Some (-1e200)%float)].

(** As [ext_triangles], for six rows of floats; k-means raises
    [ValueError] unless [1 <= k] and [k] is at most the number of rows. *)
Definition ext_float_triangles (first : nat) : Externals float :=
  {| ext_choice := fun r => first + r;
     ext_randint := fun r i => i;
     ext_silhouette := fun m labels =>
       if all_equal labels then None
       else if bool_decide (labels = [0; 0; 0; 1; 1; 1]) then Some 1%float
       else Some 0%float;
     ext_kmeans := fun r call k m =>
       if (1 <=? k)%nat && (k <=? length m)%nat
       then Ok (fun i => if (k =? 2)%nat then i / 3 else 0)
       else Err ValueError |}.

Definition all_finite (m : Matrix float) : bool := forallb (forallb is_finite) m.

(** [silhouette_score] and [KMeans.fit_predict] check their input first
    and raise [ValueError] for a matrix with a NaN or an infinity.  Round
    [r] takes node [r mod N] as seed. *)
Definition ext_checked : Externals float :=
  {| ext_choice := fun r => r;
     ext_randint := fun r i => i;
     ext_silhouette := fun m labels =>
       if all_equal labels || negb (all_finite m) then None else Some 0%float;
     ext_kmeans := fun r call k m =>
       if all_finite m && (1 <=? k)%nat && (k <=? length m)%nat
       then Ok (fun i => 0)
       else Err ValueError |}.

(** * Properties *)

(** A round, and a turn of the loop, on concrete inputs: by evaluation. *)
Ltac run_round :=
  eexists; split;
  [ do 4 eexists; split; [vm_compute; reflexivity|];
    split; [discriminate|];
    split; vm_compute; reflexivity
  | ].

Ltac run_step :=
  eapply rtc_l; [split; [reflexivity | vm_compute; reflexivity]|].

(** ** Results and loops that may raise *)

Lemma bind_Ok {A B} (m : Result A) (k : A -> Result B) (b : B) :
  bind m k = Ok b -> exists a, m = Ok a /\ k a = Ok b.
Proof. destruct m as [a|e]; simpl; [eauto | discriminate]. Qed.

Tactic Notation "bind_inv" hyp(H) :=
  let a := fresh "a" in
  let Ha := fresh "Ha" in
  apply bind_Ok in H as (a & Ha & H).

Tactic Notation "bind_inv" hyp(H) "as" simple_intropattern(x) ident(Hx) :=
  apply bind_Ok in H as (x & Hx & H).

(** A property that every step keeps holds when the loop is over. *)
Lemma for_each_inv {A B} (P : B -> Prop) (f : B -> A -> Result B) (l : list A) :
  (forall b a b', P b -> f b a = Ok b' -> P b') ->
  forall acc acc', P acc -> for_each f l acc = Ok acc' -> P acc'.
Proof.
  intros Hstep. induction l as [|x l IH]; simpl; intros acc acc' Hacc Hrun.
  - by injection Hrun as <-.
  - bind_inv Hrun. eauto.
Qed.

(** ** The bookkeeping of a round *)

Section LoopFacts.
Context {W : Type}.
Variable diffuse_select :
  nat -> Matrix W -> list string -> Result (Matrix W * list string * nat).
Variable cluster_cut : nat -> nat -> Matrix W -> Result (list nat * Z).

(** What the body leaves behind, by the value of [topscore]. *)
Lemma loop_body_cases (st st' : RunState W) :
  loop_body diffuse_select cluster_cut st = Ok st' ->
  exists adj1 out1 topscore,
    diffuse_select (rounds st) (adj st) (stdout st) = Ok (adj1, out1, topscore)
    /\ adj st' = adj1 /\ stdout st' = out1 /\ rounds st' = S (rounds st)
    /\ ((topscore = 0 /\ bestcluster st' = PyNone
         /\ delay st' = delay st /\ prev_sparsity st' = prev_sparsity st
         /\ iters st' = iters st)
        \/ (topscore <> 0 /\ exists labels sparsity,
              cluster_cut (rounds st) topscore adj1 = Ok (labels, sparsity)
              /\ bestcluster st' = Labels labels
              /\ delay st' = update_delay (prev_sparsity st) sparsity (delay st)
              /\ prev_sparsity st' = sparsity
              /\ iters st' = (iters st + 1)%Z)).
Proof.
  unfold loop_body. intros Hbody. bind_inv Hbody.
  destruct a as [[adj1 out1] topscore]. exists adj1, out1, topscore.
  destruct (Nat.eqb_spec topscore 0) as [->|Hne].
  - injection Hbody as <-. simpl. split; [done|]. repeat split; auto.
    left. repeat split; done.
  - bind_inv Hbody. destruct a as [labels sparsity]. injection Hbody as <-.
    simpl. split; [done|]. repeat split; auto.
    right. split; [done|]. exists labels, sparsity. repeat split; done.
Qed.

Lemma round_yields_state (st st' : RunState W) (sparsity : Z) :
  round_yields diffuse_select cluster_cut st sparsity st' ->
  delay st' = update_delay (prev_sparsity st) sparsity (delay st)
  /\ prev_sparsity st' = sparsity
  /\ iters st' = (iters st + 1)%Z
  /\ rounds st' = S (rounds st)
  /\ loop_body diffuse_select cluster_cut st = Ok st'.
Proof.
  intros (adj1 & out1 & topscore & labels & Hds & Hne & Hcc & Hbody).
  destruct (loop_body_cases _ _ Hbody)
    as (adj1' & out1' & topscore' & Hds' & _ & _ & Hr & Hcase).
  rewrite Hds in Hds'. injection Hds' as <- <- <-.
  destruct Hcase as [(-> & _)|(_ & labels' & sparsity' & Hcc' & _ & Hd & Hp & Hi)];
    [done|].
  rewrite Hcc in Hcc'. injection Hcc' as <- <-. done.
Qed.

(** Three rounds that compute 5, 5 and 5 bring [delay] to 2, and the
    loop with [limit = 2] stops there. *)
Lemma three_equal_rounds (iterations : Z) (fuel : nat) (st0 : RunState W) (rest : list Z) :
  delay st0 = 0%Z -> prev_sparsity st0 = 0%Z -> iters st0 = 0%Z ->
  (3 <= iterations)%Z -> 3 <= fuel ->
  rounds_yield diffuse_select cluster_cut st0 (5 :: 5 :: 5 :: rest)%Z ->
  exists st,
    while_loop 2 iterations diffuse_select cluster_cut fuel st0 = Exited st
    /\ rounds st = 3 + rounds st0
    /\ delay st = 2%Z /\ iters st = 3%Z /\ prev_sparsity st = 5%Z.
Proof.
  intros Hd0 Hp0 Hi0 Hit Hfuel (st1 & Hy1 & st2 & Hy2 & st3 & Hy3 & _).
  apply round_yields_state in Hy1 as (Hd1 & Hp1 & Hi1 & Hr1 & Hb1).
  apply round_yields_state in Hy2 as (Hd2 & Hp2 & Hi2 & Hr2 & Hb2).
  apply round_yields_state in Hy3 as (Hd3 & Hp3 & Hi3 & Hr3 & Hb3).
  rewrite Hd0, Hp0 in Hd1. rewrite Hd1, Hp1 in Hd2. rewrite Hd2, Hp2 in Hd3.
  rewrite Hi0 in Hi1. rewrite Hi1 in Hi2. rewrite Hi2 in Hi3.
  cbn in Hd1, Hd2, Hd3, Hi1, Hi2, Hi3.
  exists st3.
  destruct fuel as [|[|[|fuel]]]; [lia..|].
  assert (Hcond : forall (st : RunState W) d i, delay st = d -> iters st = i ->
            (d < 2)%Z -> (i < 3)%Z -> loop_cond 2 iterations st = true).
  { intros st d i <- <- ? ?. unfold loop_cond.
    apply andb_true_intro. split; apply Z.ltb_lt; lia. }
  cbn [while_loop].
  rewrite (Hcond st0 0%Z 0%Z), Hb1 by (done || lia).
  rewrite (Hcond st1 0%Z 1%Z), Hb2 by (done || lia).
  rewrite (Hcond st2 1%Z 2%Z), Hb3 by (done || lia).
  assert (Hstop : loop_cond 2 iterations st3 = false).
  { unfold loop_cond. rewrite Hd3. done. }
  destruct fuel; cbn [while_loop]; rewrite Hstop;
    (split; [done|]); repeat split; try done; lia.
Qed.
End LoopFacts.

(** ** The loop of [cluster_graph] *)

Section RunFacts.
Context {Node W : Type} `{EqDecision Node} `{Number W}.
Variable ext : Externals W.
Variable graph : Graph Node W.
Variables limit diff_range max_clusters iterations : Z.

(** Lines 203-206, case by case. *)
Lemma update_delay_rules (prev_sparsity sparsity delay : Z) :
  ((sparsity < prev_sparsity)%Z -> update_delay prev_sparsity sparsity delay = 0%Z)
  /\ (sparsity = prev_sparsity ->
      update_delay prev_sparsity sparsity delay = (delay + 1)%Z)
  /\ ((sparsity > prev_sparsity)%Z ->
      update_delay prev_sparsity sparsity delay = delay).
Proof.
  unfold update_delay.
  destruct (Z.gtb_spec prev_sparsity sparsity), (Z.eqb_spec prev_sparsity sparsity);
    repeat split; intros; try lia; done.
Qed.

(** The warning of lines 209-211 is tied to the literal 1000. *)
Lemma finish_stdout (st : RunState W) (out : Labelled Node W) :
  finish graph st = Ok out ->
  lg_stdout out =
    if (iters st =? 1000)%Z then stdout st ++ [no_convergence_msg] else stdout st.
Proof. unfold finish. intros Hfin. bind_inv Hfin. by injection Hfin as <-. Qed.

(** A seed is drawn from the node list; there is none to draw from an
    empty one. *)
Lemma choice_empty {A} (rnd : nat) : choice rnd (@nil A) = Err IndexError.
Proof. done. Qed.

Lemma choice_Ok {A} (rnd : nat) (l : list A) (x : A) : choice rnd l = Ok x -> x ∈ l.
Proof.
  unfold choice. destruct (l !! _) eqn:Hl; [|done].
  intros [= <-]. by eapply list_elem_of_lookup_2.
Qed.
End RunFacts.

(** C6.  The delay rules of lines 203-206 are: reset to 0 when the sparsity
    went down, one more when it is unchanged, untouched when it went up.
    When the successive rounds of a run compute the sparsity values
    5, 5, 5, 4, 4 and [limit] is 2, the loop exits after the third round
    with [delay = 2 = limit]; no fourth round is executed. *)
Theorem C6_converged_after_third_round
    {Node W : Type} `{EqDecision Node} `{Number W}
    (ext : Externals W) (graph : Graph Node W)
    (diff_range max_clusters iterations : Z) (fuel : nat) :
  (3 <= iterations)%Z -> 3 <= fuel ->
  rounds_yield (manca_diffuse_select ext graph diff_range max_clusters)
               (manca_cluster_cut ext graph) (init graph) [5; 5; 5; 4; 4]%Z ->
  (forall prev_sparsity sparsity delay : Z,
      ((sparsity < prev_sparsity)%Z -> update_delay prev_sparsity sparsity delay = 0%Z)
      /\ (sparsity = prev_sparsity ->
          update_delay prev_sparsity sparsity delay = (delay + 1)%Z)
      /\ ((sparsity > prev_sparsity)%Z ->
          update_delay prev_sparsity sparsity delay = delay))
  /\ exists st,
      manca_loop ext graph 2 diff_range max_clusters iterations fuel (init graph)
        = Exited st
      /\ rounds st = 3 /\ delay st = 2%Z /\ iters st = 3%Z.
Proof.
  intros Hit Hfuel Hyield. split; [apply update_delay_rules|].
  destruct (three_equal_rounds
              (manca_diffuse_select ext graph diff_range max_clusters)
              (manca_cluster_cut ext graph) iterations fuel (init graph) [4; 4]%Z)
    as (st & Hloop & Hr & Hd & Hi & _); try done.
  exists st. repeat split; try done.
Qed.

(** C2 (amended).  A round in which a candidate cluster count wins
    ([topscore] is not 0) sets [prev_sparsity] to the sparsity computed in
    that round and adds exactly 1 to [iters]; a round in which the random
    baseline wins computes no sparsity and leaves [prev_sparsity] and
    [delay] as they were. *)
Theorem C2_round_bookkeeping
    {Node W : Type} `{EqDecision Node} `{Number W}
    (ext : Externals W) (graph : Graph Node W) (diff_range max_clusters : Z)
    (st st' : RunState W) :
  manca_body ext graph diff_range max_clusters st = Ok st' ->
  exists adj1 out1 topscore,
    manca_diffuse_select ext graph diff_range max_clusters
      (rounds st) (adj st) (stdout st) = Ok (adj1, out1, topscore)
    /\ (topscore <> 0 ->
        exists labels sparsity,
          manca_cluster_cut ext graph (rounds st) topscore adj1 = Ok (labels, sparsity)
          /\ prev_sparsity st' = sparsity
          /\ iters st' = (iters st + 1)%Z)
    /\ (topscore = 0 ->
        prev_sparsity st' = prev_sparsity st /\ delay st' = delay st).
Proof.
  intros Hbody.
  destruct (loop_body_cases _ _ _ _ Hbody)
    as (adj1 & out1 & topscore & Hds & _ & _ & _ & Hcase).
  exists adj1, out1, topscore. split; [done|].
  destruct Hcase as [(-> & _ & Hd & Hp & _)|(Hne & labels & sparsity & Hcc & _ & _ & Hp & Hi)].
  - split; [done|]. done.
  - split; [|done]. intros _. by exists labels, sparsity.
Qed.


(** C10.  With the default parameters and a graph without nodes, the
    first round draws its seed from an empty list: [cluster_graph] raises
    [IndexError] and returns no graph. *)
Theorem C10_empty_graph_raises
    {Node W : Type} `{EqDecision Node} `{Number W}
    (ext : Externals W) (graph : Graph Node W) (fuel : nat) :
  nodes graph = [] ->
  cluster_graph ext graph 100 3 5 1000 (S fuel) = Raised IndexError.
Proof.
  intros Hnodes.
  unfold cluster_graph, manca_loop. cbn [while_loop].
  replace (loop_cond 100 1000 (init graph)) with true by done.
  unfold loop_body, manca_diffuse_select, seed. cbn [rounds init].
  rewrite Hnodes, choice_empty. done.
Qed.

Lemma C6_converged_after_third_round_witness :
  exists st,
    manca_loop ext_fan fan 2 0 2 1000 10 (init fan) = Exited st
    /\ rounds st = 3 /\ delay st = 2%Z /\ iters st = 3%Z.
Proof.
  refine (proj2 (C6_converged_after_third_round ext_fan fan 0 2 1000 10 _ _ _)).
  - lia.
  - lia.
  - do 5 run_round. exact I.
Defined.

Lemma C2_round_bookkeeping_witness :
  exists st' adj1 out1 topscore,
    manca_body (ext_triangles 0) two_triangles 1 2 (init two_triangles) = Ok st'
    /\ manca_diffuse_select (ext_triangles 0) two_triangles 1 2 0
         (zeros 6) [] = Ok (adj1, out1, topscore)
    /\ (topscore <> 0 ->
        exists labels sparsity,
          manca_cluster_cut (ext_triangles 0) two_triangles 0 topscore adj1
            = Ok (labels, sparsity)
          /\ prev_sparsity st' = sparsity
          /\ iters st' = 1%Z)
    /\ (topscore = 0 -> prev_sparsity st' = 0%Z /\ delay st' = 0%Z).
Proof.
  eexists.
  assert (Hbody : manca_body (ext_triangles 0) two_triangles 1 2 (init two_triangles)
                  = Ok _) by (vm_compute; reflexivity).
  destruct (C2_round_bookkeeping _ _ _ _ _ _ Hbody) as (adj1 & out1 & topscore & Hrest).
  exists adj1, out1, topscore. split; [exact Hbody | exact Hrest].
Defined.

(** C2 as stated fails: with [ext_tie], the second round of the run on
    the two triangles is won by the baseline ([topscore = 0]), and [iters]
    is 1 before and after it. *)
Lemma C2_counterexample :
  manca_body ext_tie two_triangles 1 2 (init two_triangles) = Ok tie_round1
  /\ manca_diffuse_select ext_tie two_triangles 1 2
       (rounds tie_round1) (adj tie_round1) (stdout tie_round1)
     = Ok (adj tie_round2, [], 0)
  /\ manca_body ext_tie two_triangles 1 2 tie_round1 = Ok tie_round2
  /\ iters tie_round2 = iters tie_round1
  /\ iters tie_round2 <> (iters tie_round1 + 1)%Z.
Proof.
  split; [vm_compute; reflexivity|].
  split; [vm_compute; reflexivity|].
  split; [vm_compute; reflexivity|].
  split; [reflexivity | discriminate].
Qed.



Lemma C10_empty_graph_raises_witness :
  cluster_graph (ext_triangles 0) (undirected 0 []) 100 3 5 1000 1 = Raised IndexError.
Proof. apply (C10_empty_graph_raises (ext_triangles 0) (undirected 0 []) 0). reflexivity. Defined.

(** C3 fails on the code: line 209 compares [iters] with the literal
    1000.  On the two triangles,
    - with [iterations = 2] the loop ends after two rounds with
      [iters = 2 >= iterations] and [delay = 1 < limit], and nothing is
      written;
    - with [limit = 999] and [iterations = 2000] the loop ends by
      convergence ([delay = 999]) with [iters = 1000 < iterations], and the
      warning is written. *)
Theorem C3_custom_cap_exhausted_without_warning :
  (exists st out,
      manca_loop (ext_triangles 0) two_triangles 100 1 2 2 10 (init two_triangles)
        = Exited st
      /\ iters st = 2%Z /\ delay st = 1%Z
      /\ cluster_graph (ext_triangles 0) two_triangles 100 1 2 2 10 = Returned out
      /\ lg_stdout out = [])
  /\ (exists st out,
        manca_loop (ext_triangles 0) two_triangles 999 1 2 2000 1500
          (init two_triangles) = Exited st
        /\ iters st = 1000%Z /\ delay st = 999%Z
        /\ cluster_graph (ext_triangles 0) two_triangles 999 1 2 2000 1500
           = Returned out
        /\ lg_stdout out = [no_convergence_msg]).
Proof.
  split.
  - do 2 eexists.
    split; [vm_compute; reflexivity|].
    split; [reflexivity|]. split; [reflexivity|].
    split; [vm_compute; reflexivity|]. reflexivity.
  - do 2 eexists.
    split; [vm_compute; reflexivity|].
    split; [reflexivity|]. split; [reflexivity|].
    split; [vm_compute; reflexivity|]. reflexivity.
Qed.

(** C4 fails on the code.  On the two triangles whose joining edge has no
    weight, the diffusion from node 2 takes the weight as 1.0 and writes
    the warning, but the sparsity of the two triangles reads the same edge
    without the [try] and raises [KeyError], and so does [cluster_graph]. *)
Theorem C4_missing_weight_raises_in_sparsity :
  (exists adj1,
      diffuse bridge_unweighted 2 1 (zeros 6) [] = Ok (adj1, [missing_weight_msg])
      /\ entry adj1 2 3 = Some 1%Z)
  /\ sparsity_of bridge_unweighted [0; 0; 0; 1; 1; 1] = Err KeyError
  /\ forall fuel,
      cluster_graph (ext_triangles 2) bridge_unweighted 100 1 2 1000 (S fuel)
      = Raised KeyError.
Proof.
  split; [eexists; split; [vm_compute; reflexivity | reflexivity]|].
  split; [vm_compute; reflexivity|].
  intros fuel. vm_compute. reflexivity.
Qed.

(** ** Rounds that the baseline wins *)

Section Flat.
Variable choices : nat -> nat.
Variable labels : nat -> nat -> nat.

Lemma flat_score (adj : Matrix Z) (l : list nat) :
  score_or_zero (ext_flat choices labels) adj l = 0%Z.
Proof. unfold score_or_zero. simpl. by destruct (all_equal l). Qed.

Lemma flat_select (r : nat) (adj : Matrix Z) :
  select (ext_flat choices labels) r 5 adj = Ok 0.
Proof.
  unfold select. cbn [Z.to_nat Pos.to_nat Pos.iter_op Nat.add seq for_each].
  unfold score_candidate, fit_predict. cbn [ext_kmeans ext_flat bind].
  by rewrite !flat_score.
Qed.

(** Without edges the diffusion has nothing to add. *)
Lemma isolated_diffuse (node : nat) (adj : Matrix Z) (out : list string) :
  node ∈ nodes isolated5 -> diffuse isolated5 node 3 adj out = Ok (adj, out).
Proof.
  intros Hnode.
  assert (Hcases : node = 0 \/ node = 1 \/ node = 2 \/ node = 3 \/ node = 4).
  { revert Hnode. vm_compute nodes. rewrite !elem_of_cons, elem_of_nil. tauto. }
  destruct Hcases as [->|[->|[->|[->| ->]]]]; reflexivity.
Qed.

Lemma flat_body (st : RunState Z) :
  manca_body (ext_flat choices labels) isolated5 3 5 st
  = Ok {| delay := delay st; adj := adj st; prev_sparsity := prev_sparsity st;
          iters := iters st; bestcluster := PyNone; stdout := stdout st;
          rounds := S (rounds st) |}.
Proof.
  unfold manca_body, loop_body, manca_diffuse_select.
  destruct (seed (ext_flat choices labels) isolated5 (rounds st)) as [node|e] eqn:Hseed.
  - apply choice_Ok in Hseed. cbn [bind].
    rewrite (isolated_diffuse _ _ _ Hseed). cbn [bind].
    rewrite flat_select. reflexivity.
  - exfalso. revert Hseed. unfold seed, choice.
    destruct (nodes isolated5 !! _) eqn:Hl; [done|].
    apply lookup_ge_None in Hl. revert Hl. vm_compute nodes. cbn [length].
    pose proof (Nat.mod_upper_bound
                  (ext_choice (ext_flat choices labels) (rounds st)) 5). lia.
Qed.

Lemma flat_loop (fuel : nat) (st : RunState Z) :
  delay st = 0%Z -> iters st = 0%Z ->
  exists st',
    manca_loop (ext_flat choices labels) isolated5 100 3 5 1000 fuel st = Running st'
    /\ iters st' = 0%Z /\ delay st' = 0%Z /\ rounds st' = fuel + rounds st.
Proof.
  revert st. induction fuel as [|fuel IH]; intros st Hd Hi.
  - exists st. unfold manca_loop. cbn [while_loop].
    unfold loop_cond. rewrite Hd, Hi. done.
  - unfold manca_loop. cbn [while_loop]. unfold loop_cond. rewrite Hd, Hi.
    cbn [Z.ltb Z.compare andb]. fold (manca_body (ext_flat choices labels) isolated5 3 5 st).
    rewrite flat_body.
    destruct (IH {| delay := delay st; adj := adj st; prev_sparsity := prev_sparsity st;
                    iters := iters st; bestcluster := PyNone; stdout := stdout st;
                    rounds := S (rounds st) |}) as (st' & Hrun & Hi' & Hd' & Hr'); [done..|].
    exists st'. split; [exact Hrun|]. cbn [rounds] in Hr'. repeat split; try done. lia.
Qed.
End Flat.

(** C1 fails on the code.  On five nodes without edges and with the
    default parameters, every round is won by the baseline whatever the
    random draws are, and [iters] is only counted under [if topscore != 0]:
    after any number [fuel] of executions of the body the loop condition
    still holds, with [iters = 0]. *)
Theorem C1_baseline_rounds_are_not_counted
    (choices : nat -> nat) (labels : nat -> nat -> nat) (fuel : nat) :
  exists st,
    manca_loop (ext_flat choices labels) isolated5 100 3 5 1000 fuel (init isolated5)
      = Running st
    /\ rounds st = fuel /\ iters st = 0%Z
    /\ cluster_graph (ext_flat choices labels) isolated5 100 3 5 1000 fuel = NoResult.
Proof.
  destruct (flat_loop choices labels fuel (init isolated5))
    as (st & Hrun & Hi & _ & Hr); [done..|].
  exists st. split; [exact Hrun|]. split; [cbn [rounds init] in Hr; lia|].
  split; [exact Hi|]. unfold cluster_graph. by rewrite Hrun.
Qed.

(** ** The affinity matrix under diffusion *)

Section MatrixFacts.
Context {W : Type} `{Number W}.

(** [adj[i, j] += v] changes the entry at [(i, j)] and no other. *)
Lemma entry_add_at (m m' : Matrix W) (i j : nat) (v : W) :
  add_at m i j v = Ok m' ->
  forall a b,
    entry m' a b =
      if decide (a = i /\ b = j) then (fun x => add x v) <$> entry m a b
      else entry m a b.
Proof.
  unfold add_at.
  destruct (m !! i) as [row|] eqn:Hrow; [|done].
  destruct (row !! j) as [x|] eqn:Hx; [|done].
  intros [= <-] a b. unfold entry.
  destruct (decide (a = i)) as [->|Hai].
  - rewrite list_lookup_insert_eq by (by eapply lookup_lt_Some). rewrite Hrow.
    destruct (decide (b = j)) as [->|Hbj].
    + rewrite list_lookup_insert_eq by (by eapply lookup_lt_Some).
      rewrite decide_True by done. by rewrite Hx.
    + rewrite list_lookup_insert_ne by done.
      rewrite decide_False by (intros [_ ?]; done). done.
  - rewrite list_lookup_insert_ne by done.
    rewrite decide_False by (intros [? _]; done). done.
Qed.

Lemma entry_zeros_eq (n i j : nat) :
  entry (zeros n) i j = if decide (i < n /\ j < n) then Some zero else None.
Proof.
  unfold entry, zeros. case_decide as Hij.
  - destruct Hij as [Hi Hj]. rewrite lookup_replicate_2 by done.
    by apply lookup_replicate_2.
  - destruct (decide (i < n)) as [Hi|Hi].
    + rewrite lookup_replicate_2 by done. apply lookup_replicate_None. lia.
    + by rewrite (proj1 (lookup_replicate_None n _ i)) by lia.
Qed.

Lemma entry_zeros (n i j : nat) (x : W) : entry (zeros n) i j = Some x -> x = zero.
Proof. rewrite entry_zeros_eq. case_decide; congruence. Qed.

Lemma zeros_symmetric (n : nat) : symmetric (zeros n).
Proof.
  intros i j. rewrite !entry_zeros_eq.
  repeat case_decide; try done; exfalso; lia.
Qed.

Lemma add_at_length (m m' : Matrix W) (i j : nat) (v : W) :
  add_at m i j v = Ok m' -> length m' = length m.
Proof.
  unfold add_at. destruct (m !! i) as [row|]; [|done].
  destruct (row !! j); [|done]. intros [= <-]. apply length_insert.
Qed.

(** Lines 149-150 together keep the matrix symmetric. *)
Lemma add_both_symmetric (m m1 m2 : Matrix W) (i j : nat) (v : W) :
  symmetric m ->
  add_at m i j v = Ok m1 -> add_at m1 j i v = Ok m2 ->
  symmetric m2.
Proof.
  intros Hsym H1 H2 a b.
  rewrite !(entry_add_at _ _ _ _ _ H2), !(entry_add_at _ _ _ _ _ H1).
  rewrite (Hsym a b).
  repeat case_decide; try done; exfalso; lia.
Qed.

(** ... and touch row [i] and column [i] only. *)
Lemma add_both_frame (m m1 m2 : Matrix W) (i j : nat) (v : W) :
  add_at m i j v = Ok m1 -> add_at m1 j i v = Ok m2 ->
  forall a b, a <> i -> b <> i -> entry m2 a b = entry m a b.
Proof.
  intros H1 H2 a b Ha Hb.
  rewrite (entry_add_at _ _ _ _ _ H2), (entry_add_at _ _ _ _ _ H1).
  repeat case_decide; try done; exfalso; lia.
Qed.
End MatrixFacts.

Section DiffusionFacts.
Context {Node W : Type} `{EqDecision Node} `{Number W}.
Variable graph : Graph Node W.

(** Each edge met by the diffusion adds the same value at [(i, j)] and
    at [(j, i)], where [i] is the row of the seed. *)
Lemma spread_edge_adj (node : Node) (nbs : list (Node * W)) (nb new_nb : Node)
    (s s' : Spread) :
  spread_edge graph node nbs nb s new_nb = Ok s' ->
  exists i j v m1,
    dict_get node (adj_index graph) = Some i
    /\ add_at (sp_adj s) i j v = Ok m1
    /\ add_at m1 j i v = Ok (sp_adj s').
Proof.
  unfold spread_edge. intros Hs.
  bind_inv Hs as [weight out] Hw. bind_inv Hs as mag Hmag.
  bind_inv Hs as i Hi. bind_inv Hs as j Hj.
  bind_inv Hs as m1 H1. bind_inv Hs as m2 H2.
  injection Hs as <-. exists i, j, (mul weight mag), m1.
  split; [|done].
  unfold dict_item in Hi. by destruct (dict_get node _); [injection Hi as ->|].
Qed.

(** Lines 141-151 leave every entry outside the row and the column of the
    seed as it is. *)
Lemma spread_edge_frame (node : Node) (nbs : list (Node * W)) (nb new_nb : Node)
    (s s' : Spread) (a b : nat) :
  spread_edge graph node nbs nb s new_nb = Ok s' ->
  dict_get node (adj_index graph) <> Some a ->
  dict_get node (adj_index graph) <> Some b ->
  entry (sp_adj s') a b = entry (sp_adj s) a b.
Proof.
  intros (i & j & v & m1 & Hi & H1 & H2)%spread_edge_adj Ha Hb.
  eapply add_both_frame; eauto; congruence.
Qed.

(** A property of the matrix that lines 149-150 keep is kept by the
    whole diffusion from [node]. *)
Lemma diffuse_inv (Q : Matrix W -> Prop) (node : Node) :
  (forall m m1 m2 i j v,
      dict_get node (adj_index graph) = Some i ->
      Q m -> add_at m i j v = Ok m1 -> add_at m1 j i v = Ok m2 -> Q m2) ->
  forall diff_range adj out adj' out',
    Q adj -> diffuse graph node diff_range adj out = Ok (adj', out') -> Q adj'.
Proof.
  intros Hadd diff_range adj out adj' out'. unfold diffuse.
  generalize (dict_set node one []) at 1. intros nbs0.
  generalize [nbs0]. generalize (Z.to_nat diff_range). clear nbs0.
  intros n. revert adj out.
  induction n as [|n IH]; intros adj out upper_diff HQ Hhops; simpl in Hhops.
  - by injection Hhops as <- <-.
  - bind_inv Hhops. eapply IH; [|exact Hhops].
    eapply (for_each_inv (fun s => Q (sp_adj s))); [| |exact Ha]; [|exact HQ].
    intros s1 nbs s2 HQ1 Hdict. unfold spread_dict in Hdict.
    eapply (for_each_inv (fun s => Q (sp_adj s))); [| |exact Hdict]; [|exact HQ1].
    intros s3 nb s4 HQ3 Hnode. unfold spread_node in Hnode.
    bind_inv Hnode as new_nbs Hnbs.
    eapply (for_each_inv (fun s => Q (sp_adj s))); [| |exact Hnode]; [|exact HQ3].
    intros s5 new_nb s6 HQ5 Hedge.
    apply spread_edge_adj in Hedge as (i & j & v & m1 & Hi & H1 & H2).
    eauto.
Qed.

Lemma diffuse_symmetric (node : Node) (diff_range : Z) (adj adj' : Matrix W)
    (out out' : list string) :
  symmetric adj ->
  diffuse graph node diff_range adj out = Ok (adj', out') ->
  symmetric adj'.
Proof.
  apply (diffuse_inv symmetric). intros m m1 m2 i j v _. apply add_both_symmetric.
Qed.

Lemma diffuse_length (node : Node) (diff_range : Z) (adj adj' : Matrix W)
    (out out' : list string) :
  diffuse graph node diff_range adj out = Ok (adj', out') ->
  length adj' = length adj.
Proof.
  intros Hdiff.
  eapply (diffuse_inv (fun m => length m = length adj)); [|reflexivity|exact Hdiff].
  intros m m1 m2 i j v _ Hm H1 H2.
  by rewrite (add_at_length _ _ _ _ _ H2), (add_at_length _ _ _ _ _ H1).
Qed.

Lemma diffuse_frame (node : Node) (diff_range : Z) (adj adj' : Matrix W)
    (out out' : list string) (a b : nat) :
  diffuse graph node diff_range adj out = Ok (adj', out') ->
  dict_get node (adj_index graph) <> Some a ->
  dict_get node (adj_index graph) <> Some b ->
  entry adj' a b = entry adj a b.
Proof.
  intros Hdiff Ha Hb.
  eapply (diffuse_inv (fun m => entry m a b = entry adj a b));
    [|reflexivity|exact Hdiff].
  intros m m1 m2 i j v Hi Hm H1 H2. rewrite <- Hm.
  eapply add_both_frame; eauto; congruence.
Qed.
End DiffusionFacts.

Section RunInvariants.
Context {Node W : Type} `{EqDecision Node} `{Number W}.
Variable ext : Externals W.
Variable graph : Graph Node W.
Variables limit diff_range max_clusters iterations : Z.

(** The matrix after a round is the diffusion from that round's seed. *)
Lemma manca_body_adj (st st' : RunState W) :
  manca_body ext graph diff_range max_clusters st = Ok st' ->
  rounds st' = S (rounds st)
  /\ exists node,
      seed ext graph (rounds st) = Ok node
      /\ diffuse graph node diff_range (adj st) (stdout st) = Ok (adj st', stdout st').
Proof.
  intros Hbody.
  destruct (loop_body_cases _ _ _ _ Hbody)
    as (adj1 & out1 & topscore & Hds & <- & <- & Hr & _).
  split; [done|].
  unfold manca_diffuse_select in Hds. bind_inv Hds as node Hseed.
  bind_inv Hds as [adj2 out2] Hdiff. bind_inv Hds as topscore' Hsel.
  injection Hds as <- <- _. by exists node.
Qed.

(** The matrix keeps one row for each node, and the labels held in
    [bestcluster] are one for each node. *)
Lemma reachable_shape (st : RunState W) :
  rtc (manca_step ext graph limit diff_range max_clusters iterations) (init graph) st ->
  length (adj st) = length (nodes graph)
  /\ forall labels, bestcluster st = Labels labels ->
                    length labels = length (nodes graph).
Proof.
  revert st. apply rtc_ind_r; [|intros st1 st2 _ [_ Hbody] [IHadj _]].
  - split; [apply length_replicate | done].
  - pose proof Hbody as Hadj.
    apply manca_body_adj in Hadj as (_ & node & _ & Hdiff).
    apply diffuse_length in Hdiff. split; [congruence|].
    destruct (loop_body_cases _ _ _ _ Hbody)
      as (adj1 & out1 & topscore & _ & Hadj1 & _ & _ & Hcase).
    intros labels Hbest.
    destruct Hcase as [(_ & Hnone & _)|(_ & labels' & sparsity & Hcc & Hlab & _)];
      [congruence|].
    rewrite Hlab in Hbest. injection Hbest as ->.
    unfold manca_cluster_cut in Hcc. bind_inv Hcc as labels'' Hfit.
    bind_inv Hcc as sparsity' Hsp. injection Hcc as <- _.
    unfold fit_predict in Hfit. bind_inv Hfit as labelling Hk.
    injection Hfit as <-. rewrite length_fmap, length_seq. congruence.
Qed.

Lemma reachable_symmetric (st : RunState W) :
  rtc (manca_step ext graph limit diff_range max_clusters iterations) (init graph) st ->
  symmetric (adj st).
Proof.
  revert st. apply rtc_ind_r; [|intros st1 st2 _ [_ Hbody] IH].
  - apply zeros_symmetric.
  - apply manca_body_adj in Hbody as (_ & node & _ & Hdiff).
    by eapply diffuse_symmetric.
Qed.

Lemma reachable_frame (st : RunState W) (i j : nat) :
  rtc (manca_step ext graph limit diff_range max_clusters iterations) (init graph) st ->
  (forall r, r < rounds st ->
             seed_index ext graph r <> Some i /\ seed_index ext graph r <> Some j) ->
  entry (adj st) i j = entry (zeros (length (nodes graph))) i j.
Proof.
  revert st. apply (rtc_ind_r (fun st =>
    (forall r, r < rounds st ->
               seed_index ext graph r <> Some i /\ seed_index ext graph r <> Some j) ->
    entry (adj st) i j = entry (zeros (length (nodes graph))) i j));
    [|intros st1 st2 _ [_ Hbody] IH].
  - done.
  - intros Hseeds.
    apply manca_body_adj in Hbody as (Hr & node & Hseed & Hdiff).
    rewrite <- IH by (intros r Hlt; apply Hseeds; lia).
    destruct (Hseeds (rounds st1)) as [Hi Hj]; [lia|].
    unfold seed_index in Hi, Hj. rewrite Hseed in Hi, Hj.
    by eapply diffuse_frame.
Qed.
End RunInvariants.

(** C7.  On float weights, the diffusion of a round keeps [adj[i][j]]
    and [adj[j][i]] the same value for all [i] and [j], and so they are
    after every round of a run, from the zeros of line 120 on (both are
    outside the matrix or both inside).  Hence [adj[i][j] == adj[j][i]]
    is true exactly where that value is not NaN, and it holds for all
    [i] and [j] exactly when no entry of the matrix is NaN. *)
Theorem C7_affinity_entries_identical
    {Node : Type} `{EqDecision Node}
    (ext : Externals float) (graph : Graph Node float)
    (limit diff_range max_clusters iterations : Z) :
  (forall node adj out adj' out',
      symmetric adj ->
      diffuse graph node diff_range adj out = Ok (adj', out') ->
      symmetric adj')
  /\ (forall st,
        rtc (manca_step ext graph limit diff_range max_clusters iterations)
            (init graph) st ->
        (forall i j, entry (adj st) i j = entry (adj st) j i)
        /\ (forall i j x y,
              entry (adj st) i j = Some x -> entry (adj st) j i = Some y ->
              float_eq x y = negb (is_nan x))
        /\ (symmetric_eq (adj st)
            <-> forall i j x, entry (adj st) i j = Some x -> is_nan x = false)).
Proof.
  split.
  - intros node adj out adj' out'. apply diffuse_symmetric.
  - intros st Hreach.
    pose proof (reachable_symmetric ext graph limit diff_range max_clusters
                  iterations st Hreach) as Hsym.
    assert (Heq : forall i j x y,
              entry (adj st) i j = Some x -> entry (adj st) j i = Some y ->
              float_eq x y = negb (is_nan x)).
    { intros i j x y Hx Hy. specialize (Hsym i j). rewrite Hx, Hy in Hsym.
      injection Hsym as <-. unfold float_eq, is_nan. by rewrite negb_involutive. }
    split; [exact Hsym|]. split; [exact Heq|]. split.
    + intros Hall i j x Hx.
      assert (Hy : entry (adj st) j i = Some x) by (by rewrite <- (Hsym i j)).
      specialize (Hall i j x x Hx Hy). rewrite (Heq i j x x Hx Hy) in Hall.
      by apply negb_true_iff.
    + intros Hnan i j x y Hx Hy. rewrite (Heq i j x y Hx Hy).
      apply negb_true_iff. by eapply Hnan.
Qed.

Lemma C7_affinity_entries_identical_witness :
  (exists adj',
      diffuse float_triangles 2 3 (zeros 6) [] = Ok (adj', [])
      /\ symmetric adj')
  /\ exists st,
      rtc (manca_step (ext_float_triangles 0) float_triangles 100 1 2 1000)
          (init float_triangles) st
      /\ rounds st = 2
      /\ (forall i j, entry (adj st) i j = entry (adj st) j i)
      /\ (forall i j x y,
            entry (adj st) i j = Some x -> entry (adj st) j i = Some y ->
            float_eq x y = negb (is_nan x))
      /\ (symmetric_eq (adj st)
          <-> forall i j x, entry (adj st) i j = Some x -> is_nan x = false).
Proof.
  destruct (C7_affinity_entries_identical
              (ext_float_triangles 0) float_triangles 100 3 2 1000) as [Hround _].
  destruct (C7_affinity_entries_identical
              (ext_float_triangles 0) float_triangles 100 1 2 1000) as [_ Hrun].
  split.
  - eexists. split; [vm_compute; reflexivity|].
    apply (Hround 2 (zeros 6) [] _ []); [apply zeros_symmetric|].
    vm_compute. reflexivity.
  - eexists. split; [|split].
    + run_step. run_step. apply rtc_refl.
    + reflexivity.
    + apply Hrun. run_step. run_step. apply rtc_refl.
Defined.

(** On [overflow_cycle] with [diff_range = 2] and seed 0, the second hop
    adds [1e200 * 1e200], an infinity, to [adj[0][2]] and [adj[2][0]] by
    way of node 1, and then [-1e200 * 1e200], the opposite infinity, by
    way of node 3: both entries end as NaN, and [==] is false on them.
    With [max_clusters = 0] no k-means is run and the round ends. *)
Lemma C7_counterexample :
  exists adj1 st,
    diffuse overflow_cycle 0 2 (zeros 4) [] = Ok (adj1, [])
    /\ manca_step ext_checked overflow_cycle 100 2 0 1000 (init overflow_cycle) st
    /\ adj st = adj1
    /\ entry adj1 0 2 = Some nan
    /\ entry adj1 2 0 = Some nan
    /\ float_eq nan nan = false
    /\ ~ symmetric_eq adj1.
Proof.
  eexists. eexists.
  split; [vm_compute; reflexivity|].
  split; [split; [reflexivity | vm_compute; reflexivity]|].
  split; [reflexivity|].
  split; [reflexivity|]. split; [reflexivity|]. split; [reflexivity|].
  intros Hsym. specialize (Hsym 0 2 nan nan eq_refl eq_refl). discriminate Hsym.
Qed.

(** C9.  Every update of the matrix (lines 149-150) and so the diffusion
    of one round change only the row and the column of that round's seed.
    So, after any number of rounds of a run, an entry [adj[i][j]] such
    that neither [i] nor [j] is the row of the seed of one of these rounds
    still holds the 0 it was created with. *)
Theorem C9_only_seed_rows_and_columns_change
    {Node W : Type} `{EqDecision Node} `{Number W}
    (ext : Externals W) (graph : Graph Node W)
    (limit diff_range max_clusters iterations : Z) :
  (forall node nbs nb new_nb s s' i j,
      spread_edge graph node nbs nb s new_nb = Ok s' ->
      dict_get node (adj_index graph) <> Some i ->
      dict_get node (adj_index graph) <> Some j ->
      entry (sp_adj s') i j = entry (sp_adj s) i j)
  /\ (forall node adj out adj' out' i j,
        diffuse graph node diff_range adj out = Ok (adj', out') ->
        dict_get node (adj_index graph) <> Some i ->
        dict_get node (adj_index graph) <> Some j ->
        entry adj' i j = entry adj i j)
  /\ (forall st i j x,
        rtc (manca_step ext graph limit diff_range max_clusters iterations)
            (init graph) st ->
        (forall r, r < rounds st ->
                   seed_index ext graph r <> Some i /\ seed_index ext graph r <> Some j) ->
        entry (adj st) i j = Some x ->
        x = zero).
Proof.
  split; [|split].
  - intros node nbs nb new_nb s s' i j. apply spread_edge_frame.
  - intros node adj out adj' out' i j. apply diffuse_frame.
  - intros st i j x Hreach Hseeds Hx.
    rewrite (reachable_frame ext graph limit diff_range max_clusters iterations
               st i j Hreach Hseeds) in Hx.
    by eapply entry_zeros.
Qed.

Lemma C9_only_seed_rows_and_columns_change_witness :
  (exists s', spread_edge two_triangles 0 [(0, 1%Z)] 0
                {| sp_adj := zeros 6; sp_stdout := []; sp_new_upper := [] |} 1 = Ok s'
              /\ entry (sp_adj s') 1 2 = entry (zeros 6) 1 2)
  /\ (exists adj', diffuse two_triangles 0 1 (zeros 6) [] = Ok (adj', [])
                   /\ entry adj' 1 2 = entry (zeros 6) 1 2)
  /\ exists st,
      rtc (manca_step (ext_triangles 0) two_triangles 100 1 2 1000) (init two_triangles) st
      /\ rounds st = 2
      /\ forall x, entry (adj st) 2 3 = Some x -> x = 0%Z.
Proof.
  destruct (C9_only_seed_rows_and_columns_change
              (ext_triangles 0) two_triangles 100 1 2 1000) as (Hedge & Hround & Hrun).
  split; [|split].
  - eexists. split; [vm_compute; reflexivity|].
    apply (Hedge 0 [(0, 1%Z)] 0 1
             {| sp_adj := zeros 6; sp_stdout := []; sp_new_upper := [] |} _ 1 2);
      [vm_compute; reflexivity | done | done].
  - eexists. split; [vm_compute; reflexivity|].
    apply (Hround 0 (zeros 6) [] _ [] 1 2); [vm_compute; reflexivity | done | done].
  - eexists. split; [|split].
    + run_step. run_step. apply rtc_refl.
    + reflexivity.
    + intros x. apply Hrun.
      * run_step. run_step. apply rtc_refl.
      * intros [|[|r]] Hr; [split; discriminate..|].
        exfalso. cbn [rounds] in Hr. lia.
Defined.

(** ** Dictionaries with distinct keys *)

Section DictFacts.
Context {K V : Type} `{EqDecision K}.

Lemma dict_set_fresh (k : K) (v : V) (d : list (K * V)) :
  k ∉ d.*1 -> dict_set k v d = d ++ [(k, v)].
Proof.
  induction d as [|[k' v'] d IH]; simpl; [done|].
  rewrite not_elem_of_cons. intros [Hne Hd].
  rewrite decide_False by done. by rewrite IH.
Qed.

Lemma dict_get_elem_of (k : K) (v : V) (d : list (K * V)) :
  NoDup (d.*1) -> dict_get k d = Some v <-> (k, v) ∈ d.
Proof.
  induction d as [|[k' v'] d IH]; simpl.
  - intros _. split; [done|]. by intros ?%elem_of_nil.
  - rewrite NoDup_cons. intros [Hk' Hd]. rewrite elem_of_cons.
    case_decide as Hk.
    + subst k'. split; [intros [= ->]; by left|].
      intros [[= ->]|Hin]; [done|].
      destruct Hk'. apply list_elem_of_fmap. by exists (k, v).
    + rewrite IH by done. split; [by right|].
      intros [[= ? ?]|?]; [congruence|done].
Qed.

Lemma dict_get_is_Some (k : K) (d : list (K * V)) :
  k ∈ d.*1 -> is_Some (dict_get k d).
Proof.
  induction d as [|[k' v'] d IH]; simpl; [by intros ?%elem_of_nil|].
  rewrite elem_of_cons. intros Hin. case_decide; [done|].
  apply IH. by destruct Hin.
Qed.

Lemma dict_get_keys (k : K) (v : V) (d : list (K * V)) :
  dict_get k d = Some v -> k ∈ d.*1.
Proof.
  induction d as [|[k' v'] d IH]; simpl; [done|].
  case_decide; [subst; intros _; by left|]. intros ?. right. by apply IH.
Qed.
End DictFacts.

(** ** The node index *)

Section IndexFacts.
Context {Node W : Type} `{EqDecision Node}.
Variable graph : Graph Node W.
Hypothesis nodes_distinct : NoDup (nodes graph).

Lemma adj_index_items :
  adj_index graph = zip (nodes graph) (seq 0 (length (nodes graph))).
Proof.
  unfold adj_index.
  assert (Hk : forall k, k <= length (nodes graph) ->
    foldl (fun d i => match nodes graph !! i with
                      | Some n => dict_set n i d
                      | None => d
                      end) [] (seq 0 k)
    = zip (take k (nodes graph)) (seq 0 k)).
  { induction k as [|k IH]; intros Hle; [done|].
    rewrite seq_S, foldl_app, IH by lia. simpl.
    destruct (nodes graph !! k) as [n|] eqn:Hn;
      [|apply lookup_ge_None in Hn; lia].
    rewrite (take_S_r _ _ _ Hn).
    rewrite zip_with_app by (rewrite length_take, length_seq; lia).
    apply dict_set_fresh.
    rewrite fst_zip by (rewrite length_take, length_seq; lia).
    intros [j Hj]%list_elem_of_lookup_1.
    apply lookup_take_Some in Hj as [Hj Hlt].
    pose proof (NoDup_lookup _ _ _ _ nodes_distinct Hj Hn). lia. }
  rewrite Hk by done. by rewrite firstn_all.
Qed.

Lemma rev_index_items :
  rev_index graph = prod_swap <$> adj_index graph.
Proof.
  unfold rev_index.
  assert (Hits : forall (its : list (Node * nat)) (d : list (nat * Node)),
    NoDup (d.*1 ++ its.*2) ->
    foldl (fun d '(k, v) => dict_set v k d) d its = d ++ (prod_swap <$> its)).
  { induction its as [|[n i] its IH]; intros d Hnd; simpl.
    - by rewrite app_nil_r.
    - simpl in Hnd. rewrite dict_set_fresh.
      + rewrite IH; [by rewrite <- app_assoc|].
        rewrite fmap_app. simpl. by rewrite <- app_assoc.
      + apply NoDup_app in Hnd as (_ & Hdisj & _).
        intros Hi. apply (Hdisj i Hi). by left. }
  rewrite Hits; [done|]. simpl.
  rewrite adj_index_items, snd_zip by (rewrite length_seq; lia).
  apply NoDup_seq.
Qed.

(** [adj_index] sends a node to its position in the node list, and
    [rev_index] a position to its node. *)
Lemma adj_index_lookup (n : Node) (i : nat) :
  dict_get n (adj_index graph) = Some i <-> nodes graph !! i = Some n.
Proof.
  rewrite dict_get_elem_of;
    [|by rewrite adj_index_items, fst_zip by (rewrite length_seq; lia)].
  rewrite adj_index_items, list_elem_of_lookup. split.
  - intros (p & (Hn & Hi)%lookup_zip_Some).
    apply lookup_seq in Hi as [-> _]. done.
  - intros Hn. exists i. apply lookup_zip_Some. split; [done|].
    apply lookup_seq. split; [done|]. by eapply lookup_lt_Some.
Qed.

Lemma rev_index_lookup (i : nat) :
  dict_get i (rev_index graph) = nodes graph !! i.
Proof.
  apply option_eq. intros n.
  rewrite dict_get_elem_of.
  - rewrite rev_index_items, list_elem_of_fmap, <- adj_index_lookup.
    rewrite dict_get_elem_of
      by (by rewrite adj_index_items, fst_zip by (rewrite length_seq; lia)).
    split; [intros ([n' i'] & [= -> ->] & Hin); done|].
    intros Hin. by exists (n, i).
  - rewrite rev_index_items, adj_index_items.
    rewrite <- list_fmap_compose.
    replace (fst ∘ prod_swap) with (@snd Node nat) by done.
    rewrite snd_zip by (rewrite length_seq; lia). apply NoDup_seq.
Qed.
End IndexFacts.

(** ** Counting loops *)

Section Counting.
Context {A : Type} `{EqDecision A}.

(** A loop whose body adds [c x] to the counter adds up [c] over the list. *)
Lemma for_each_sum (f : Z -> A -> Result Z) (c : A -> Z) (l : list A) :
  (forall x acc, x ∈ l -> f acc x = Ok (acc + c x)%Z) ->
  forall acc, for_each f l acc = Ok (acc + Zsum c l)%Z.
Proof.
  induction l as [|x l IH]; intros Hf acc; simpl.
  - by rewrite Z.add_0_r.
  - rewrite Hf by (by left). simpl.
    rewrite IH by (intros; apply Hf; by right). f_equal. lia.
Qed.

Lemma Zsum_ext (c c' : A -> Z) (l : list A) :
  (forall x, x ∈ l -> c x = c' x) -> Zsum c l = Zsum c' l.
Proof.
  induction l as [|x l IH]; intros Hc; simpl; [done|].
  rewrite Hc by (by left). rewrite IH; [done|]. intros; apply Hc; by right.
Qed.

Lemma Zsum_zero (l : list A) : Zsum (fun _ => 0%Z) l = 0%Z.
Proof. induction l; simpl; lia. Qed.

Lemma Zsum_add (c c' : A -> Z) (l : list A) :
  Zsum (fun x => (c x + c' x)%Z) l = (Zsum c l + Zsum c' l)%Z.
Proof. induction l; simpl; lia. Qed.

(** In a list without repetition, [y] is met once if at all. *)
Lemma Zsum_ind (y : A) (l : list A) :
  NoDup l -> Zsum (fun x => ind (x = y)) l = ind (y ∈ l).
Proof.
  induction l as [|x l IH]; simpl.
  - intros _. unfold ind. rewrite decide_False; [done|]. by intros ?%elem_of_nil.
  - rewrite NoDup_cons. intros [Hx Hl]. rewrite IH by done.
    unfold ind. destruct (decide (x = y)) as [->|Hne].
    + rewrite (decide_False (P := y ∈ l)) by done.
      rewrite decide_True by (by left). done.
    + destruct (decide (y ∈ l)) as [Hin|Hin].
      * rewrite decide_True by (by right). done.
      * rewrite decide_False; [done|].
        rewrite not_elem_of_cons. split; [congruence|done].
Qed.
End Counting.

Lemma ind_iff (P Q : Prop) `{Decision P} `{Decision Q} : (P <-> Q) -> ind P = ind Q.
Proof. intros HPQ. unfold ind. repeat case_decide; tauto. Qed.

Lemma ind_True (P : Prop) `{Decision P} : P -> ind P = 1%Z.
Proof. intros HP. unfold ind. by rewrite decide_True. Qed.

Lemma ind_False (P : Prop) `{Decision P} : ~ P -> ind P = 0%Z.
Proof. intros HP. unfold ind. by rewrite decide_False. Qed.

(** ** The sparsity of a partition with a single cut edge *)

Section CutFacts.
Context {Node W : Type} `{EqDecision Node} `{Number W}.
Variable graph : Graph Node W.
Variable bestcluster : list nat.
Variables a b : Node.
Variable w : W.
Hypothesis keys_distinct : dict_keys_distinct graph.
Hypothesis one_label_per_node : length bestcluster = length (nodes graph).
Hypothesis positive : gt w zero = true.
Hypothesis single_cut : forall u v d,
  inter_cluster graph bestcluster u v d
  <-> ((u = a /\ v = b) \/ (u = b /\ v = a)) /\ d = Some w.

Local Lemma nodes_distinct : NoDup (nodes graph).
Proof. apply keys_distinct. Qed.

(** [node_ids] for a label holds the nodes of that cluster. *)
Lemma node_ids_spec (v : Node) (cluster_id : nat) :
  v ∈ node_ids graph bestcluster cluster_id
  <-> cluster_of graph bestcluster v = Some cluster_id.
Proof.
  unfold node_ids, cluster_of. rewrite list_elem_of_omap. split.
  - intros (i & Hi & Hv).
    apply list_elem_of_filter in Hi as [Hbc _].
    rewrite (rev_index_lookup graph nodes_distinct) in Hv.
    apply (adj_index_lookup graph nodes_distinct) in Hv. by rewrite Hv.
  - destruct (dict_get v (adj_index graph)) as [i|] eqn:Hi; [|done].
    intros Hbc. exists i. split.
    + apply list_elem_of_filter. split; [done|].
      apply elem_of_seq. apply lookup_lt_Some in Hbc. lia.
    + rewrite (rev_index_lookup graph nodes_distinct).
      by apply (adj_index_lookup graph nodes_distinct).
Qed.

Lemma cluster_of_node (v : Node) :
  v ∈ nodes graph -> is_Some (cluster_of graph bestcluster v).
Proof.
  intros [i Hi]%list_elem_of_lookup_1. unfold cluster_of.
  rewrite (proj2 (adj_index_lookup graph nodes_distinct v i) Hi).
  apply lookup_lt_is_Some. rewrite one_label_per_node. by eapply lookup_lt_Some.
Qed.

Lemma edge_from_node (u v : Node) (d : option W) :
  get_edge_data graph u v = Some d -> u ∈ nodes graph.
Proof.
  unfold get_edge_data, nodes.
  destruct (dict_get u (adjacency graph)) eqn:Hu; [|done].
  intros _. by eapply dict_get_keys.
Qed.

Lemma cut_ab : inter_cluster graph bestcluster a b (Some w).
Proof. apply single_cut. split; [by left | done]. Qed.

Lemma cut_ba : inter_cluster graph bestcluster b a (Some w).
Proof. apply single_cut. split; [by right | done]. Qed.

(** Lines 194-201 add 1 exactly for the two ends of the cut edge. *)
Lemma cut_edge_spec (u nb : Node) (cluster_id : nat) (d : option W) (sparsity : Z) :
  cluster_of graph bestcluster u = Some cluster_id ->
  get_edge_data graph u nb = Some d ->
  cut_edge graph (node_ids graph bestcluster cluster_id) u sparsity nb
  = Ok (sparsity + (ind (u = a /\ nb = b) + ind (u = b /\ nb = a)))%Z.
Proof.
  intros Hu Hedge. unfold cut_edge.
  destruct (decide (nb ∈ node_ids graph bestcluster cluster_id)) as [Hin|Hout].
  - rewrite bool_decide_eq_true_2 by done.
    apply node_ids_spec in Hin.
    assert (Hsame : cluster_of graph bestcluster u = cluster_of graph bestcluster nb)
      by congruence.
    rewrite !ind_False; [f_equal; lia| |].
    + intros [-> ->]. by destruct cut_ba as [_ Hne].
    + intros [-> ->]. by destruct cut_ab as [_ Hne].
  - rewrite bool_decide_eq_false_2 by done.
    assert (Hinter : inter_cluster graph bestcluster u nb d).
    { split; [done|]. rewrite Hu. intros Heq. apply Hout, node_ids_spec. done. }
    apply single_cut in Hinter as [Hends ->].
    unfold edge_weight. rewrite Hedge. simpl. rewrite positive. f_equal.
    destruct cut_ab as [_ Hne].
    destruct Hends as [[-> ->]|[-> ->]].
    + rewrite ind_True by done. rewrite ind_False; [lia|]. intros [-> _]. done.
    + rewrite (ind_True (b = b /\ a = a)) by done.
      rewrite ind_False; [lia|]. intros [-> _]. done.
Qed.

Lemma Zsum_end (u x y : Node) (keys : list Node) :
  NoDup keys -> (u = x -> y ∈ keys) ->
  Zsum (fun nb => ind (u = x /\ nb = y)) keys = ind (u = x).
Proof.
  intros Hnd Hy. destruct (decide (u = x)) as [->|Hne].
  - rewrite (Zsum_ext _ (fun nb => ind (nb = y)))
      by (intros; apply ind_iff; tauto).
    rewrite Zsum_ind by done. rewrite !ind_True; auto.
  - rewrite (Zsum_ext _ (fun _ => 0%Z)) by (intros; apply ind_False; tauto).
    rewrite Zsum_zero. by rewrite ind_False.
Qed.

Lemma neighbour_key (u v : Node) (d : option W) (nbrs : list (Node * option W)) :
  dict_get u (adjacency graph) = Some nbrs ->
  get_edge_data graph u v = Some d -> v ∈ nbrs.*1.
Proof.
  unfold get_edge_data. intros ->. apply dict_get_keys.
Qed.

(** Lines 192-201 for a node of the cluster. *)
Lemma cut_node_spec (u : Node) (cluster_id : nat) (sparsity : Z) :
  u ∈ nodes graph ->
  cluster_of graph bestcluster u = Some cluster_id ->
  cut_node graph (node_ids graph bestcluster cluster_id) sparsity u
  = Ok (sparsity + (ind (u = a) + ind (u = b)))%Z.
Proof.
  intros Hnode Hu. unfold cut_node, neighbors.
  destruct (dict_get_is_Some u (adjacency graph) Hnode) as [nbrs Hnbrs].
  rewrite Hnbrs. simpl.
  rewrite (for_each_sum _ (fun nb => (ind (u = a /\ nb = b) + ind (u = b /\ nb = a))%Z)).
  - rewrite Zsum_add. f_equal. f_equal.
    destruct keys_distinct as [_ Hnd]. specialize (Hnd u nbrs Hnbrs).
    rewrite !Zsum_end; [done|done| |done|].
    + intros ->. destruct cut_ba as [Hedge _]. by eapply neighbour_key.
    + intros ->. destruct cut_ab as [Hedge _]. by eapply neighbour_key.
  - intros nb acc Hnb.
    destruct (dict_get_is_Some nb nbrs Hnb) as [d Hd].
    apply (cut_edge_spec u nb cluster_id d); [done|].
    unfold get_edge_data. by rewrite Hnbrs.
Qed.

(** Lines 185-201 for one label. *)
Lemma cut_cluster_spec (cluster_id : nat) (sparsity : Z) :
  cut_cluster graph bestcluster sparsity cluster_id
  = Ok (sparsity + (ind (cluster_of graph bestcluster a = Some cluster_id)
                    + ind (cluster_of graph bestcluster b = Some cluster_id)))%Z.
Proof.
  unfold cut_cluster, subgraph_nodes.
  rewrite (for_each_sum _ (fun u => (ind (u = a) + ind (u = b))%Z)).
  - rewrite Zsum_add, !Zsum_ind by (apply NoDup_filter, nodes_distinct).
    assert (Hmember : forall v, v ∈ nodes graph ->
      ind (v ∈ filter (fun n => n ∈ node_ids graph bestcluster cluster_id)
                      (nodes graph))
      = ind (cluster_of graph bestcluster v = Some cluster_id)).
    { intros v Hv. apply ind_iff.
      rewrite list_elem_of_filter, node_ids_spec. tauto. }
    rewrite !Hmember; [done| |].
    + destruct cut_ba as [Hedge _]. by eapply edge_from_node.
    + destruct cut_ab as [Hedge _]. by eapply edge_from_node.
  - intros u acc [Hin Hnode]%list_elem_of_filter.
    apply cut_node_spec; [done|]. by apply node_ids_spec.
Qed.

Lemma single_cut_sparsity : sparsity_of graph bestcluster = Ok 2%Z.
Proof.
  unfold sparsity_of.
  rewrite (for_each_sum _ (fun cluster_id =>
             (ind (cluster_of graph bestcluster a = Some cluster_id)
              + ind (cluster_of graph bestcluster b = Some cluster_id))%Z))
    by (intros; apply cut_cluster_spec).
  f_equal. rewrite Zsum_add.
  assert (Hlabel : forall v, v ∈ nodes graph ->
    Zsum (fun cluster_id => ind (cluster_of graph bestcluster v = Some cluster_id))
         (remove_dups bestcluster) = 1%Z).
  { intros v Hv. destruct (cluster_of_node v Hv) as [c Hc]. rewrite Hc.
    rewrite (Zsum_ext _ (fun cluster_id => ind (cluster_id = c)))
      by (intros; apply ind_iff; split; congruence).
    rewrite Zsum_ind by apply NoDup_remove_dups.
    apply ind_True. apply elem_of_remove_dups.
    unfold cluster_of in Hc. destruct (dict_get v _); [|done].
    by eapply list_elem_of_lookup_2. }
  rewrite !Hlabel; [done| |].
  - destruct cut_ba as [Hedge _]. by eapply edge_from_node.
  - destruct cut_ab as [Hedge _]. by eapply edge_from_node.
Qed.
End CutFacts.

(** C5 (amended).  When a partition has a single inter-cluster edge and
    its weight is positive, the sparsity evaluation computes 2: the edge is
    met once from each of its two ends (e.g. the two triangles joined by
    one edge of weight 1). *)
Theorem C5_single_positive_cut_edge_scores_two
    {Node W : Type} `{EqDecision Node} `{Number W}
    (graph : Graph Node W) (bestcluster : list nat) (a b : Node) (w : W) :
  dict_keys_distinct graph ->
  length bestcluster = length (nodes graph) ->
  gt w zero = true ->
  (forall u v d,
      inter_cluster graph bestcluster u v d
      <-> ((u = a /\ v = b) \/ (u = b /\ v = a)) /\ d = Some w) ->
  sparsity_of graph bestcluster = Ok 2%Z.
Proof. apply single_cut_sparsity. Qed.

Lemma C5_single_positive_cut_edge_scores_two_witness :
  sparsity_of two_triangles [0; 0; 0; 1; 1; 1] = Ok 2%Z.
Proof.
  apply (C5_single_positive_cut_edge_scores_two
           two_triangles [0; 0; 0; 1; 1; 1] 2 3 1%Z).
  - split.
    + apply (bool_decide_unpack _). vm_compute. exact I.
    + intros u nbrs.
      destruct u as [|[|[|[|[|[|u]]]]]]; vm_compute; intros Hu;
        try discriminate; injection Hu as <-;
        apply (bool_decide_unpack _); vm_compute; exact I.
  - reflexivity.
  - reflexivity.
  - intros u v d. unfold inter_cluster. split.
    + intros [Hedge Hcl].
      destruct u as [|[|[|[|[|[|u]]]]]]; destruct v as [|[|[|[|[|[|v]]]]]];
        vm_compute in Hedge; try discriminate; injection Hedge as <-;
        vm_compute in Hcl; try (by destruct Hcl);
        split; try reflexivity; auto.
    + intros [[[-> ->]|[-> ->]] ->]; split; vm_compute; try reflexivity;
        discriminate.
Defined.

(** C5 as stated fails: for the two triangles joined by one edge of
    weight 1, the code computes 2, not 1. *)
Lemma C5_counterexample :
  sparsity_of two_triangles [0; 0; 0; 1; 1; 1] = Ok 2%Z
  /\ sparsity_of two_triangles [0; 0; 0; 1; 1; 1] <> Ok 1%Z.
Proof. split; [vm_compute; reflexivity | vm_compute; discriminate]. Qed.

(** * Further properties of [cluster_graph] *)

(** ** What the loop reaches *)

Section LoopReach.
Context {W : Type}.
Variables limit iterations : Z.
Variable diffuse_select :
  nat -> Matrix W -> list string -> Result (Matrix W * list string * nat).
Variable cluster_cut : nat -> nat -> Matrix W -> Result (list nat * Z).

(** The state the loop ends in, or is in when the fuel is spent, is
    reached by turns of the loop. *)
Lemma while_loop_reaches (fuel : nat) (st : RunState W) :
  match while_loop limit iterations diffuse_select cluster_cut fuel st with
  | Exited st' =>
      rtc (loop_step limit iterations diffuse_select cluster_cut) st st'
      /\ loop_cond limit iterations st' = false
  | Running st' =>
      rtc (loop_step limit iterations diffuse_select cluster_cut) st st'
      /\ loop_cond limit iterations st' = true
      /\ rounds st' = fuel + rounds st
  | Failed _ => True
  end.
Proof.
  revert st. induction fuel as [|fuel IH]; intros st; cbn [while_loop];
    destruct (loop_cond limit iterations st) eqn:Hcond; try done.
  destruct (loop_body diffuse_select cluster_cut st) as [st1|e] eqn:Hbody; [|done].
  specialize (IH st1).
  assert (Hstep : loop_step limit iterations diffuse_select cluster_cut st st1) by done.
  assert (Hr : rounds st1 = S (rounds st)).
  { by destruct (loop_body_cases _ _ _ _ Hbody) as (? & ? & ? & _ & _ & _ & ? & _). }
  destruct (while_loop limit iterations diffuse_select cluster_cut fuel st1);
    [|done|].
  - destruct IH as [Hrtc Hc]. split; [by eapply rtc_l|done].
  - destruct IH as (Hrtc & Hc & Hrounds). split; [by eapply rtc_l|].
    split; [done|lia].
Qed.

Lemma update_delay_bounds (prev_sparsity sparsity delay : Z) :
  (0 <= delay)%Z ->
  (0 <= update_delay prev_sparsity sparsity delay <= delay + 1)%Z.
Proof.
  intros Hd. unfold update_delay.
  destruct (Z.gtb_spec prev_sparsity sparsity), (Z.eqb_spec prev_sparsity sparsity); lia.
Qed.

Lemma loop_cond_true (st : RunState W) :
  loop_cond limit iterations st = true ->
  (delay st < limit)%Z /\ (iters st < iterations)%Z.
Proof. unfold loop_cond. intros [? ?]%andb_prop. split; by apply Z.ltb_lt. Qed.

Lemma loop_cond_false (st : RunState W) :
  loop_cond limit iterations st = false ->
  (limit <= delay st)%Z \/ (iterations <= iters st)%Z.
Proof.
  unfold loop_cond. intros [?|?]%andb_false_iff; [left|right]; by apply Z.ltb_ge.
Qed.
End LoopReach.

Section RunBounds.
Context {Node W : Type} `{EqDecision Node} `{Number W}.
Variable ext : Externals W.
Variable graph : Graph Node W.
Variables limit diff_range max_clusters iterations : Z.

Lemma for_each_app {A B} (f : B -> A -> Result B) (l1 l2 : list A) (acc : B) :
  for_each f (l1 ++ l2) acc = do acc' <- for_each f l1 acc; for_each f l2 acc'.
Proof.
  revert acc. induction l1 as [|x l1 IH]; intros acc; simpl; [done|].
  destruct (f acc x); simpl; [apply IH | done].
Qed.

(** Lines 212-214 with an array of labels in [bestcluster]. *)
Lemma finish_labels (st : RunState W) (labels : list nat) :
  NoDup (nodes graph) ->
  bestcluster st = Labels labels ->
  length labels = length (nodes graph) ->
  finish graph st
  = Ok {| lg_graph := graph;
          lg_cluster := zip (nodes graph) labels;
          lg_stdout := if (iters st =? 1000)%Z
                       then stdout st ++ [no_convergence_msg] else stdout st |}.
Proof.
  intros Hnd Hbest Hlen. unfold finish. rewrite Hbest.
  assert (Hk : forall k, k <= length (nodes graph) ->
    for_each (fun clusdict i =>
                do c <- subscript (Labels labels) i;
                do n <- match nodes graph !! i with
                        | Some n => Ok n
                        | None => Err IndexError
                        end;
                Ok (dict_set n c clusdict)) (seq 0 k) []
    = Ok (zip (take k (nodes graph)) (take k labels))).
  { induction k as [|k IH]; intros Hle; [done|].
    rewrite seq_S, for_each_app, IH by lia. simpl.
    destruct (labels !! k) as [c|] eqn:Hc; [|apply lookup_ge_None in Hc; lia].
    destruct (nodes graph !! k) as [n|] eqn:Hn; [|apply lookup_ge_None in Hn; lia].
    simpl. f_equal.
    rewrite (take_S_r _ _ _ Hn), (take_S_r _ _ _ Hc).
    rewrite zip_with_app by (rewrite !length_take; lia).
    apply dict_set_fresh.
    rewrite fst_zip by (rewrite !length_take; lia).
    intros [j Hj]%list_elem_of_lookup_1.
    apply lookup_take_Some in Hj as [Hj Hlt].
    pose proof (NoDup_lookup _ _ _ _ Hnd Hj Hn). lia. }
  rewrite Hk by done. simpl. rewrite firstn_all.
  rewrite <- Hlen at 1. by rewrite firstn_all.
Qed.

(** The loop is never left right after a round that the baseline won:
    such a round changes neither [delay] nor [iters]. *)
Lemma exit_state (st : RunState W) :
  rtc (manca_step ext graph limit diff_range max_clusters iterations) (init graph) st ->
  st = init graph
  \/ loop_cond limit iterations st = true
  \/ exists labels, bestcluster st = Labels labels.
Proof.
  revert st. apply rtc_ind_r; [by left|].
  intros st1 st2 _ [Hcond Hbody] _. right.
  destruct (loop_body_cases _ _ _ _ Hbody)
    as (adj1 & out1 & topscore & _ & _ & _ & _ & Hcase).
  destruct Hcase as [(_ & _ & Hd & _ & Hi)|(_ & labels & sparsity & _ & Hlab & _)].
  - left. unfold loop_cond in *. by rewrite Hd, Hi.
  - right. by exists labels.
Qed.

Lemma reachable_bounds (st : RunState W) :
  rtc (manca_step ext graph limit diff_range max_clusters iterations) (init graph) st ->
  (0 <= delay st <= iters st)%Z
  /\ (iters st <= Z.of_nat (rounds st))%Z
  /\ (iters st <= Z.max 0 iterations)%Z
  /\ (delay st <= Z.max 0 limit)%Z.
Proof.
  revert st. apply rtc_ind_r; [simpl; lia|].
  intros st1 st2 _ [Hcond Hbody] (Hd & Hi & Hit & Hlim).
  apply loop_cond_true in Hcond as [Hdl Hil].
  destruct (loop_body_cases _ _ _ _ Hbody)
    as (adj1 & out1 & topscore & _ & _ & _ & Hr & Hcase).
  destruct Hcase as [(_ & _ & -> & _ & ->)
                    |(_ & labels & sparsity & _ & _ & -> & _ & ->)].
  - rewrite Hr. lia.
  - pose proof (update_delay_bounds (prev_sparsity st1) sparsity (delay st1)).
    rewrite Hr. lia.
Qed.

(** When the baseline wins none of the rounds that the run executes,
    every round is counted. *)
Lemma all_rounds_counted (st : RunState W) :
  (forall st1 node adj1 out1,
      rtc (manca_step ext graph limit diff_range max_clusters iterations)
          (init graph) st1 ->
      loop_cond limit iterations st1 = true ->
      seed ext graph (rounds st1) = Ok node ->
      diffuse graph node diff_range (adj st1) (stdout st1) = Ok (adj1, out1) ->
      select ext (rounds st1) max_clusters adj1 <> Ok 0) ->
  rtc (manca_step ext graph limit diff_range max_clusters iterations) (init graph) st ->
  iters st = Z.of_nat (rounds st).
Proof.
  intros Hsel. revert st.
  apply (rtc_ind_r (fun st => iters st = Z.of_nat (rounds st))); [done|].
  intros st1 st2 Hreach [Hcond Hbody] IH.
  destruct (loop_body_cases _ _ _ _ Hbody)
    as (adj1 & out1 & topscore & Hds & _ & _ & Hr & Hcase).
  destruct Hcase as [(-> & _)|(_ & labels & sparsity & _ & _ & _ & _ & ->)];
    [|rewrite Hr; lia].
  exfalso. unfold manca_diffuse_select in Hds.
  bind_inv Hds as node Hseed. bind_inv Hds as [adj2 out2] Hdiff.
  bind_inv Hds as topscore Hselect. injection Hds as <- <- ->.
  by apply (Hsel st1 node adj2 out2).
Qed.
End RunBounds.

(** X9.  In every state the loop reaches, [0 <= delay <= iters], [iters]
    is at most the number of rounds executed, [iters] never exceeds
    [iterations] and [delay] never exceeds [limit] (0 when the bound is
    negative).  So when the loop condition fails in such a state, with
    positive [limit] and [iterations], then [delay = limit] or
    [iters = iterations]. *)
Theorem X9_run_state_bounds
    {Node W : Type} `{EqDecision Node} `{Number W}
    (ext : Externals W) (graph : Graph Node W)
    (limit diff_range max_clusters iterations : Z) (st : RunState W) :
  rtc (manca_step ext graph limit diff_range max_clusters iterations) (init graph) st ->
  (0 <= delay st <= iters st)%Z
  /\ (iters st <= Z.of_nat (rounds st))%Z
  /\ (iters st <= Z.max 0 iterations)%Z
  /\ (delay st <= Z.max 0 limit)%Z
  /\ ((0 < limit)%Z -> (0 < iterations)%Z ->
      loop_cond limit iterations st = false ->
      delay st = limit \/ iters st = iterations).
Proof.
  intros Hreach.
  destruct (reachable_bounds ext graph limit diff_range max_clusters iterations
              st Hreach) as (Hd & Hi & Hit & Hlim).
  repeat split; try lia.
  intros Hlimit Hiter [?|?]%loop_cond_false; [left|right]; lia.
Qed.

Lemma X9_run_state_bounds_witness :
  (0 <= delay tie_round2 <= iters tie_round2)%Z
  /\ (iters tie_round2 <= Z.of_nat (rounds tie_round2))%Z
  /\ (iters tie_round2 <= Z.max 0 1000)%Z
  /\ (delay tie_round2 <= Z.max 0 100)%Z
  /\ ((0 < 100)%Z -> (0 < 1000)%Z ->
      loop_cond 100 1000 tie_round2 = false ->
      delay tie_round2 = 100%Z \/ iters tie_round2 = 1000%Z).
Proof.
  apply (X9_run_state_bounds ext_tie two_triangles 100 1 2 1000).
  run_step. run_step. apply rtc_refl.
Defined.

(** X10.  When [limit] and [iterations] are positive and the loop exits,
    the last round was won by a candidate: [bestcluster] holds one label
    for each node, lines 212-215 do not raise, and the graph is returned
    with node number [i] carrying label number [i]. *)
Theorem X10_exit_returns_labelled_graph
    {Node W : Type} `{EqDecision Node} `{Number W}
    (ext : Externals W) (graph : Graph Node W)
    (limit diff_range max_clusters iterations : Z) (fuel : nat) (st : RunState W) :
  NoDup (nodes graph) ->
  (0 < limit)%Z -> (0 < iterations)%Z ->
  manca_loop ext graph limit diff_range max_clusters iterations fuel (init graph)
    = Exited st ->
  exists labels,
    bestcluster st = Labels labels
    /\ length labels = length (nodes graph)
    /\ cluster_graph ext graph limit diff_range max_clusters iterations fuel
       = Returned {| lg_graph := graph;
                     lg_cluster := zip (nodes graph) labels;
                     lg_stdout := if (iters st =? 1000)%Z
                                  then stdout st ++ [no_convergence_msg]
                                  else stdout st |}.
Proof.
  intros Hnd Hlimit Hiter Hloop.
  pose proof (while_loop_reaches limit iterations
                (manca_diffuse_select ext graph diff_range max_clusters)
                (manca_cluster_cut ext graph) fuel (init graph)) as Hreach.
  unfold manca_loop in Hloop. rewrite Hloop in Hreach.
  destruct Hreach as [Hrtc Hcond].
  destruct (exit_state ext graph limit diff_range max_clusters iterations st Hrtc)
    as [->|[Hc|[labels Hlab]]].
  - exfalso. unfold loop_cond in Hcond. cbn [delay iters init] in Hcond.
    apply andb_false_iff in Hcond as [Hc|Hc]; apply Z.ltb_ge in Hc; lia.
  - congruence.
  - exists labels.
    destruct (reachable_shape _ _ _ _ _ _ _ Hrtc) as [_ Hshape].
    specialize (Hshape labels Hlab).
    split; [done|]. split; [done|].
    unfold cluster_graph, manca_loop. rewrite Hloop.
    by rewrite (finish_labels graph st labels Hnd Hlab Hshape).
Qed.

Lemma X10_exit_returns_labelled_graph_witness :
  exists st labels,
    manca_loop (ext_triangles 0) two_triangles 100 1 2 2 10 (init two_triangles)
      = Exited st
    /\ bestcluster st = Labels labels
    /\ length labels = length (nodes two_triangles)
    /\ cluster_graph (ext_triangles 0) two_triangles 100 1 2 2 10
       = Returned {| lg_graph := two_triangles;
                     lg_cluster := zip (nodes two_triangles) labels;
                     lg_stdout := if (iters st =? 1000)%Z
                                  then stdout st ++ [no_convergence_msg]
                                  else stdout st |}.
Proof.
  eexists.
  assert (Hloop : manca_loop (ext_triangles 0) two_triangles 100 1 2 2 10
                    (init two_triangles) = Exited _) by (vm_compute; reflexivity).
  destruct (X10_exit_returns_labelled_graph
              (ext_triangles 0) two_triangles 100 1 2 2 10 _
              ltac:(apply (bool_decide_unpack _); vm_compute; exact I)
              ltac:(lia) ltac:(lia) Hloop) as (labels & Hrest).
  exists labels. split; [exact Hloop | exact Hrest].
Defined.

(** X11.  When [limit <= 0] or [iterations <= 0] no round is executed,
    whatever the fuel: on a graph with a node, line 214 reads [bestcluster]
    before any assignment and raises [UnboundLocalError]; a graph without
    nodes is returned with no label and no output. *)
Theorem X11_no_round_without_budget
    {Node W : Type} `{EqDecision Node} `{Number W}
    (ext : Externals W) (graph : Graph Node W)
    (limit diff_range max_clusters iterations : Z) (fuel : nat) :
  (limit <= 0)%Z \/ (iterations <= 0)%Z ->
  cluster_graph ext graph limit diff_range max_clusters iterations fuel
  = match nodes graph with
    | [] => Returned {| lg_graph := graph; lg_cluster := []; lg_stdout := [] |}
    | _ :: _ => Raised UnboundLocalError
    end.
Proof.
  intros Hbudget. unfold cluster_graph, manca_loop.
  assert (Hcond : loop_cond limit iterations (init graph) = false).
  { unfold loop_cond. cbn [delay iters init]. apply andb_false_iff.
    destruct Hbudget; [left|right]; apply Z.ltb_ge; lia. }
  destruct fuel; cbn [while_loop]; rewrite Hcond; unfold finish; cbn [iters init];
    destruct (nodes graph); reflexivity.
Qed.

Lemma X11_no_round_without_budget_witness :
  cluster_graph (ext_triangles 0) two_triangles 0 1 2 1000 5
  = Raised UnboundLocalError.
Proof.
  apply (X11_no_round_without_budget (ext_triangles 0) two_triangles 0 1 2 1000 5).
  left. lia.
Defined.

(** X12.  When the baseline wins none of the rounds that the run
    executes ([select] does not give 0 on the matrix that the diffusion
    of a round leaves, in any state the loop reaches), every round is
    counted and [iterations] executions of the body are enough:
    [cluster_graph] returns or raises. *)
Theorem X12_exits_when_baseline_never_wins
    {Node W : Type} `{EqDecision Node} `{Number W}
    (ext : Externals W) (graph : Graph Node W)
    (limit diff_range max_clusters iterations : Z) (fuel : nat) :
  (forall st node adj1 out1,
      rtc (manca_step ext graph limit diff_range max_clusters iterations)
          (init graph) st ->
      loop_cond limit iterations st = true ->
      seed ext graph (rounds st) = Ok node ->
      diffuse graph node diff_range (adj st) (stdout st) = Ok (adj1, out1) ->
      select ext (rounds st) max_clusters adj1 <> Ok 0) ->
  Z.to_nat iterations <= fuel ->
  cluster_graph ext graph limit diff_range max_clusters iterations fuel <> NoResult.
Proof.
  intros Hsel Hfuel. unfold cluster_graph, manca_loop.
  pose proof (while_loop_reaches limit iterations
                (manca_diffuse_select ext graph diff_range max_clusters)
                (manca_cluster_cut ext graph) fuel (init graph)) as Hreach.
  destruct (while_loop _ _ _ _ fuel (init graph)) as [st|e|st]; [|done|].
  - by destruct (finish graph st).
  - exfalso. destruct Hreach as (Hrtc & Hcond & Hr).
    apply loop_cond_true in Hcond as [_ Hlt].
    rewrite (all_rounds_counted ext graph limit diff_range max_clusters iterations
               st Hsel Hrtc) in Hlt.
    cbn [rounds init] in Hr. lia.
Qed.

Lemma X12_exits_when_baseline_never_wins_witness :
  cluster_graph (ext_triangles 0) two_triangles 100 1 2 2 2 <> NoResult.
Proof.
  apply (X12_exits_when_baseline_never_wins (ext_triangles 0) two_triangles 100 1 2 2 2).
  - intros st node adj1 out1 Hreach _ _ Hdiff.
    apply reachable_shape in Hreach as [Hlen _].
    apply diffuse_length in Hdiff. rewrite Hlen in Hdiff.
    destruct adj1 as [|a0 [|a1 [|a2 [|a3 [|a4 [|a5 [|a6 adj1]]]]]]];
      vm_compute in Hdiff; try discriminate Hdiff.
    vm_compute. discriminate.
  - vm_compute. lia.
Defined.

(** ** The node index *)

(** X1.  On a graph whose nodes are distinct, [adj_index] and [rev_index]
    are inverse bijections between the nodes and the positions
    [0 .. N-1]: every node has a position below [N] that [rev_index]
    sends back to it, every position below [N] has a node that
    [adj_index] sends back to it, and two nodes never share a position. *)
Theorem X1_node_index_round_trip
    {Node W : Type} `{EqDecision Node} (graph : Graph Node W) :
  NoDup (nodes graph) ->
  (forall n, n ∈ nodes graph ->
             exists i, i < length (nodes graph)
                       /\ dict_get n (adj_index graph) = Some i
                       /\ dict_get i (rev_index graph) = Some n)
  /\ (forall i, i < length (nodes graph) ->
                exists n, dict_get i (rev_index graph) = Some n
                          /\ dict_get n (adj_index graph) = Some i)
  /\ (forall n1 n2 i,
         dict_get n1 (adj_index graph) = Some i ->
         dict_get n2 (adj_index graph) = Some i -> n1 = n2).
Proof.
  intros Hnd. split; [|split].
  - intros n [i Hi]%list_elem_of_lookup_1. exists i.
    split; [by eapply lookup_lt_Some|].
    split; [by apply adj_index_lookup | by rewrite rev_index_lookup].
  - intros i [n Hn]%lookup_lt_is_Some. exists n.
    split; [by rewrite rev_index_lookup | by apply adj_index_lookup].
  - intros n1 n2 i H1%adj_index_lookup H2%adj_index_lookup; [|done..].
    congruence.
Qed.

Lemma X1_node_index_round_trip_witness :
  dict_get 4 (adj_index two_triangles) = Some 4
  /\ dict_get 4 (rev_index two_triangles) = Some 4.
Proof.
  destruct (X1_node_index_round_trip two_triangles
              ltac:(apply (bool_decide_unpack _); vm_compute; exact I))
    as (Hnode & Hpos & _).
  destruct (Hpos 4 ltac:(vm_compute; lia)) as (n & Hrev & Hadj).
  assert (n = 4) as -> by (vm_compute in Hrev; congruence).
  done.
Defined.

(** ** Cluster selection *)

Section SelectFacts.
Context {W : Type} `{Number W}.
Variable ext : Externals W.

(** [argmax_from] keeps the index it holds or moves to a later one. *)
Lemma argmax_from_range (best_i : nat) (best : W) (i : nat) (l : list W) :
  argmax_from best_i best i l = best_i
  \/ i <= argmax_from best_i best i l < i + length l.
Proof.
  revert best_i best i. induction l as [|x l IH]; intros best_i best i; simpl;
    [by left|].
  destruct (gt x best).
  - right. destruct (IH i x (S i)) as [->|?]; lia.
  - destruct (IH best_i best (S i)) as [->|?]; [by left | right; lia].
Qed.

(** It keeps the index it holds exactly when nothing later is greater. *)
Lemma argmax_from_keeps (best_i : nat) (best : W) (i : nat) (l : list W) :
  best_i < i ->
  argmax_from best_i best i l = best_i <-> Forall (fun y => gt y best = false) l.
Proof.
  revert best_i best i. induction l as [|x l IH]; intros best_i best i Hlt; simpl.
  - split; [by constructor | done].
  - rewrite Forall_cons. destruct (gt x best) eqn:Hx.
    + split; [|by intros [? _]].
      destruct (argmax_from_range i x (S i) l) as [->|?]; lia.
    + rewrite IH by lia. tauto.
Qed.

(** The scores appended by lines 168-177 are those of the candidates. *)
Lemma score_candidates (r : nat) (adj : Matrix W) (ks : list nat) (sh sh' : list W) :
  for_each (score_candidate ext r adj) ks sh = Ok sh' ->
  exists scores,
    sh' = sh ++ scores
    /\ Forall2 (fun k s => exists clusters,
                   fit_predict ext r Candidate k adj = Ok clusters
                   /\ s = score_or_zero ext adj clusters) ks scores.
Proof.
  revert sh. induction ks as [|k ks IH]; intros sh Hrun; simpl in Hrun.
  - injection Hrun as <-. exists []. by rewrite app_nil_r.
  - bind_inv Hrun as sh1 Hk. unfold score_candidate in Hk.
    bind_inv Hk as clusters Hfit. injection Hk as <-.
    destruct (IH _ Hrun) as (scores & -> & Hall).
    exists (score_or_zero ext adj clusters :: scores).
    split; [by rewrite <- app_assoc|]. constructor; [by exists clusters | done].
Qed.

Lemma select_scores (r : nat) (max_clusters : Z) (adj : Matrix W) (topscore : nat) :
  select ext r max_clusters adj = Ok topscore ->
  exists scores,
    topscore = argmax (score_or_zero ext adj (randomclust ext r adj) :: scores)
    /\ Forall2 (fun k s => exists clusters,
                   fit_predict ext r Candidate k adj = Ok clusters
                   /\ s = score_or_zero ext adj clusters)
               (seq 1 (Z.to_nat max_clusters)) scores.
Proof.
  unfold select. intros Hsel. bind_inv Hsel as sh Hfor.
  injection Hsel as <-.
  apply score_candidates in Hfor as (scores & -> & Hall). by exists scores.
Qed.
End SelectFacts.

(** X4.  The index that [select] returns is at most [max_clusters]; in
    particular it is 0 when [max_clusters] is 0 or negative. *)
Theorem X4_topscore_at_most_max_clusters
    {W : Type} `{Number W} (ext : Externals W)
    (r : nat) (max_clusters : Z) (adj : Matrix W) (topscore : nat) :
  select ext r max_clusters adj = Ok topscore ->
  topscore <= Z.to_nat max_clusters.
Proof.
  intros (scores & -> & Hall)%select_scores.
  apply Forall2_length in Hall. rewrite length_seq in Hall.
  unfold argmax.
  destruct (argmax_from_range 0 (score_or_zero ext adj (randomclust ext r adj))
              1 scores) as [->|?]; lia.
Qed.

Lemma X4_topscore_at_most_max_clusters_witness :
  select (ext_triangles 0) 0 2 (zeros 6) = Ok 2 /\ 2 <= Z.to_nat 2.
Proof.
  assert (Hsel : select (ext_triangles 0) 0 2 (zeros 6) = Ok 2)
    by (vm_compute; reflexivity).
  split; [exact Hsel|].
  exact (X4_topscore_at_most_max_clusters (ext_triangles 0) 0 2 (zeros 6) 2 Hsel).
Defined.

(** X5.  The baseline wins a round ([topscore] is 0) exactly when no
    candidate clustering scores strictly more than the random labels: a
    candidate that only equals the baseline's score does not replace it. *)
Theorem X5_baseline_wins_unless_strictly_beaten
    {W : Type} `{Number W} (ext : Externals W)
    (r : nat) (max_clusters : Z) (adj : Matrix W) (topscore : nat) :
  select ext r max_clusters adj = Ok topscore ->
  topscore = 0
  <-> forall k clusters,
        1 <= k <= Z.to_nat max_clusters ->
        fit_predict ext r Candidate k adj = Ok clusters ->
        gt (score_or_zero ext adj clusters)
           (score_or_zero ext adj (randomclust ext r adj)) = false.
Proof.
  intros (scores & -> & Hall)%select_scores.
  unfold argmax. rewrite argmax_from_keeps by lia.
  rewrite Forall_lookup. split.
  - intros Hscores k clusters Hk Hfit.
    assert (Hin : seq 1 (Z.to_nat max_clusters) !! (k - 1) = Some k).
    { apply lookup_seq. lia. }
    destruct (Forall2_lookup_l _ _ _ _ _ Hall Hin) as (s & Hs & clusters' & Hfit' & ->).
    assert (clusters' = clusters) as -> by congruence.
    by eapply Hscores.
  - intros Hcand i s Hs.
    destruct (Forall2_lookup_r _ _ _ _ _ Hall Hs) as (k & Hk & clusters & Hfit & ->).
    apply lookup_seq in Hk as [-> Hi].
    apply (Hcand (1 + i)); [lia | done].
Qed.

Lemma X5_baseline_wins_unless_strictly_beaten_witness :
  0 = 0
  <-> forall k clusters,
        1 <= k <= Z.to_nat 2 ->
        fit_predict ext_tie 1 Candidate k (adj tie_round2) = Ok clusters ->
        gt (score_or_zero ext_tie (adj tie_round2) clusters)
           (score_or_zero ext_tie (adj tie_round2)
              (randomclust ext_tie 1 (adj tie_round2))) = false.
Proof.
  apply (X5_baseline_wins_unless_strictly_beaten ext_tie 1 2 (adj tie_round2) 0).
  vm_compute. reflexivity.
Defined.

(** ** The sparsity of a partition *)

Lemma for_each_fails {A B} (f : B -> A -> Result B) (e : PyExn) (l : list A) (x : A) :
  x ∈ l ->
  (forall acc, f acc x = Err e) ->
  (forall y acc, y ∈ l -> (exists acc', f acc y = Ok acc') \/ f acc y = Err e) ->
  forall acc, for_each f l acc = Err e.
Proof.
  induction l as [|y l IH]; intros Hin Hx Hall acc; [by apply elem_of_nil in Hin|].
  simpl. destruct (Hall y acc ltac:(by left)) as [[acc' Hy]|Hy]; rewrite Hy; [|done].
  simpl. apply elem_of_cons in Hin as [->|Hin].
  - by rewrite Hx in Hy.
  - apply IH; [done..|]. intros; apply Hall; by right.
Qed.

Lemma remove_dups_replicate (n c : nat) : remove_dups (replicate (S n) c) = [c].
Proof.
  induction n as [|n IH]; [done|].
  change (replicate (S (S n)) c) with (c :: replicate (S n) c).
  cbn [remove_dups]. rewrite IH.
  destruct (decide_rel elem_of c (replicate (S n) c)) as [_|Hout]; [done|].
  destruct Hout. by left.
Qed.

Lemma Zsum_scale {A} (c : A -> Z) (z : Z) (l : list A) :
  Zsum (fun x => (c x * z)%Z) l = (Zsum c l * z)%Z.
Proof. induction l; simpl; lia. Qed.

(** Summing over the keys of a dict and looking each value up is summing
    over its items. *)
Lemma Zsum_keys {K V : Type} `{EqDecision K} (h : K -> V -> Z) (d : list (K * V)) :
  NoDup (d.*1) ->
  Zsum (fun k => match dict_get k d with
                 | Some v => h k v
                 | None => 0%Z
                 end) (d.*1)
  = Zsum (fun '(k, v) => h k v) d.
Proof.
  induction d as [|[k v] d IH]; [done|].
  simpl. rewrite NoDup_cons. intros [Hk Hd].
  rewrite decide_True by done. f_equal. rewrite <- IH by done.
  apply Zsum_ext. intros k' Hk'. rewrite decide_False; [done|].
  intros ->. done.
Qed.

(** A sum over groups that partition a list is the sum over the list. *)
Lemma Zsum_groups {A K : Type} `{EqDecision K} (c : A -> Z) (lab : A -> K)
    (P : K -> A -> Prop) `{forall k x, Decision (P k x)} (ks : list K) (l : list A) :
  NoDup ks ->
  (forall x, x ∈ l -> lab x ∈ ks) ->
  (forall k x, x ∈ l -> P k x <-> lab x = k) ->
  Zsum (fun k => Zsum c (filter (P k) l)) ks = Zsum c l.
Proof.
  intros Hks. induction l as [|x l IH]; intros Hlab HP.
  - simpl. apply Zsum_zero.
  - cbn [Zsum]. rewrite <- IH
      by (intros; first [apply Hlab | apply HP]; by right).
    rewrite (Zsum_ext _ (fun k => (ind (k = lab x) * c x
                                   + Zsum c (filter (P k) l))%Z)).
    + rewrite Zsum_add, Zsum_scale, Zsum_ind by done.
      rewrite ind_True by (apply Hlab; by left). lia.
    + intros k _. rewrite filter_cons. unfold ind.
      destruct (decide (P k x)) as [HPk|HPk].
      * apply HP in HPk; [|by left]. rewrite decide_True by done. simpl. lia.
      * rewrite decide_False; [lia|]. intros ->. apply HPk, HP; [by left|done].
Qed.

Section SparsityFacts.
Context {Node W : Type} `{EqDecision Node} `{Number W}.
Variable graph : Graph Node W.
Variable bestcluster : list nat.
Hypothesis keys_distinct : dict_keys_distinct graph.
Hypothesis one_label_per_node : length bestcluster = length (nodes graph).

Lemma node_has_cluster (u : Node) :
  u ∈ nodes graph -> exists c, cluster_of graph bestcluster u = Some c.
Proof.
  intros Hu.
  destruct (cluster_of_node graph bestcluster keys_distinct one_label_per_node u Hu)
    as [c Hc]. by exists c.
Qed.

Lemma node_has_neighbours (u : Node) :
  u ∈ nodes graph -> exists nbrs, dict_get u (adjacency graph) = Some nbrs.
Proof. intros Hu. by destruct (dict_get_is_Some u (adjacency graph) Hu) as [nbrs ?]; eauto. Qed.

Lemma cluster_label_in (u : Node) (c : nat) :
  cluster_of graph bestcluster u = Some c -> c ∈ bestcluster.
Proof.
  unfold cluster_of. destruct (dict_get u _); [|done].
  apply list_elem_of_lookup_2.
Qed.

(** Lines 194-201 read the weight of an edge only when it leaves the
    cluster; they raise [KeyError] or nothing. *)
Lemma cut_edge_cases (u nb : Node) (cluster_id : nat)
    (nbrs : list (Node * option W)) (d : option W) (sparsity : Z) :
  cluster_of graph bestcluster u = Some cluster_id ->
  dict_get u (adjacency graph) = Some nbrs ->
  dict_get nb nbrs = Some d ->
  cut_edge graph (node_ids graph bestcluster cluster_id) u sparsity nb
  = if decide (cluster_of graph bestcluster u = cluster_of graph bestcluster nb)
    then Ok sparsity
    else match d with
         | Some w => Ok (sparsity + sign_of w)%Z
         | None => Err KeyError
         end.
Proof.
  intros Hu Hnbrs Hd. unfold cut_edge.
  pose proof (node_ids_spec graph bestcluster keys_distinct one_label_per_node
                nb cluster_id) as Hids.
  rewrite Hu. case_decide as Hsame.
  - rewrite bool_decide_eq_true_2; [done|]. by apply Hids.
  - rewrite bool_decide_eq_false_2 by (intros ?%Hids; congruence).
    unfold edge_weight, get_edge_data. rewrite Hnbrs, Hd.
    destruct d as [w|]; [|done]. simpl. unfold sign_of.
    destruct (gt w zero); f_equal; lia.
Qed.
End SparsityFacts.

Lemma for_each_ok_or {A B} (f : B -> A -> Result B) (e : PyExn) (l : list A) :
  (forall y acc, y ∈ l -> (exists acc', f acc y = Ok acc') \/ f acc y = Err e) ->
  forall acc, (exists acc', for_each f l acc = Ok acc') \/ for_each f l acc = Err e.
Proof.
  induction l as [|y l IH]; intros Hall acc; simpl; [left; by eexists|].
  destruct (Hall y acc ltac:(by left)) as [[acc' Hy]|Hy]; rewrite Hy; simpl;
    [|by right].
  apply IH. intros; apply Hall; by right.
Qed.

Section SparsityResults.
Context {Node W : Type} `{EqDecision Node} `{Number W}.
Variable graph : Graph Node W.
Variable bestcluster : list nat.
Hypothesis keys_distinct : dict_keys_distinct graph.
Hypothesis one_label_per_node : length bestcluster = length (nodes graph).

(** The part of the signed cut that is seen from node [u]. *)
Let node_cut (u : Node) : Z :=
  match dict_get u (adjacency graph) with
  | Some nbrs => Zsum (fun '(v, d) => pair_cut graph bestcluster u v d) nbrs
  | None => 0%Z
  end.

Lemma filter_node_ids (cluster_id : nat) (u : Node) :
  u ∈ subgraph_nodes graph (node_ids graph bestcluster cluster_id)
  <-> u ∈ nodes graph /\ cluster_of graph bestcluster u = Some cluster_id.
Proof.
  unfold subgraph_nodes. rewrite list_elem_of_filter.
  rewrite (node_ids_spec graph bestcluster keys_distinct one_label_per_node). tauto.
Qed.

Section Weighted.
Hypothesis cut_edges_weighted :
  forall u v d, inter_cluster graph bestcluster u v d -> d <> None.

Lemma cut_node_sum (u : Node) (cluster_id : nat) (sparsity : Z) :
  u ∈ nodes graph ->
  cluster_of graph bestcluster u = Some cluster_id ->
  cut_node graph (node_ids graph bestcluster cluster_id) sparsity u
  = Ok (sparsity + node_cut u)%Z.
Proof.
  intros Hnode Hu. unfold cut_node, neighbors, node_cut.
  destruct (node_has_neighbours graph u Hnode) as [nbrs Hnbrs]. rewrite Hnbrs. simpl.
  destruct keys_distinct as [_ Hnd]. specialize (Hnd u nbrs Hnbrs).
  rewrite <- (Zsum_keys (pair_cut graph bestcluster u) nbrs Hnd).
  apply for_each_sum. intros nb acc Hnb.
  destruct (dict_get_is_Some nb nbrs Hnb) as [d Hd]. rewrite Hd.
  rewrite (cut_edge_cases graph bestcluster keys_distinct one_label_per_node
             u nb cluster_id nbrs d acc Hu Hnbrs Hd).
  unfold pair_cut. case_decide as Hsame; [f_equal; lia|].
  destruct d as [w|]; [done|].
  destruct (cut_edges_weighted u nb None); [|done].
  split; [|done]. unfold get_edge_data. by rewrite Hnbrs.
Qed.

Lemma cut_cluster_sum (cluster_id : nat) (sparsity : Z) :
  cut_cluster graph bestcluster sparsity cluster_id
  = Ok (sparsity
        + Zsum node_cut (subgraph_nodes graph (node_ids graph bestcluster cluster_id)))%Z.
Proof.
  unfold cut_cluster. apply for_each_sum.
  intros u acc [Hnode Hu]%filter_node_ids. by apply cut_node_sum.
Qed.

(** Lines 183-201 compute the signed cut. *)
Lemma sparsity_is_cut_score :
  sparsity_of graph bestcluster = Ok (cut_score graph bestcluster).
Proof.
  unfold sparsity_of.
  rewrite (for_each_sum _ (fun cluster_id =>
             Zsum node_cut
                  (subgraph_nodes graph (node_ids graph bestcluster cluster_id))))
    by (intros; apply cut_cluster_sum).
  f_equal. rewrite Z.add_0_l. unfold subgraph_nodes.
  rewrite (Zsum_groups node_cut
             (fun u => default 0 (cluster_of graph bestcluster u))
             (fun cluster_id u => u ∈ node_ids graph bestcluster cluster_id)).
  - unfold node_cut, cut_score, nodes.
    destruct keys_distinct as [Hnd _].
    apply (Zsum_keys (fun u nbrs =>
             Zsum (fun '(v, d) => pair_cut graph bestcluster u v d) nbrs)
             (adjacency graph) Hnd).
  - apply NoDup_remove_dups.
  - intros u Hu. destruct (node_has_cluster graph bestcluster keys_distinct
                             one_label_per_node u Hu) as [c Hc].
    rewrite Hc. simpl. apply elem_of_remove_dups. by eapply cluster_label_in.
  - intros k u Hu.
    rewrite (node_ids_spec graph bestcluster keys_distinct one_label_per_node).
    destruct (node_has_cluster graph bestcluster keys_distinct
                one_label_per_node u Hu) as [c Hc].
    rewrite Hc. simpl. split; congruence.
Qed.
End Weighted.

(** An edge without weight between two clusters makes lines 183-201
    raise [KeyError], and nothing else can. *)
Lemma cut_node_ok_or (u : Node) (cluster_id : nat) (sparsity : Z) :
  u ∈ nodes graph ->
  cluster_of graph bestcluster u = Some cluster_id ->
  (exists s, cut_node graph (node_ids graph bestcluster cluster_id) sparsity u = Ok s)
  \/ cut_node graph (node_ids graph bestcluster cluster_id) sparsity u = Err KeyError.
Proof.
  intros Hnode Hu. unfold cut_node, neighbors.
  destruct (node_has_neighbours graph u Hnode) as [nbrs Hnbrs]. rewrite Hnbrs. simpl.
  apply for_each_ok_or. intros nb acc Hnb.
  destruct (dict_get_is_Some nb nbrs Hnb) as [d Hd].
  rewrite (cut_edge_cases graph bestcluster keys_distinct one_label_per_node
             u nb cluster_id nbrs d acc Hu Hnbrs Hd).
  case_decide; [left; by eexists|]. destruct d; [left; by eexists | by right].
Qed.

Lemma sparsity_unweighted_cut (u v : Node) :
  inter_cluster graph bestcluster u v None ->
  sparsity_of graph bestcluster = Err KeyError.
Proof.
  intros [Hedge Hdiff].
  pose proof (edge_from_node graph u v None Hedge) as Hnode.
  destruct (node_has_cluster graph bestcluster keys_distinct
              one_label_per_node u Hnode) as [c Hc].
  destruct (node_has_neighbours graph u Hnode) as [nbrs Hnbrs].
  assert (Hd : dict_get v nbrs = Some None).
  { unfold get_edge_data in Hedge. by rewrite Hnbrs in Hedge. }
  unfold sparsity_of. apply (for_each_fails _ KeyError _ c).
  - apply elem_of_remove_dups. by eapply cluster_label_in.
  - intros acc. unfold cut_cluster. apply (for_each_fails _ KeyError _ u).
    + by apply filter_node_ids.
    + intros acc'. unfold cut_node, neighbors. rewrite Hnbrs. simpl.
      apply (for_each_fails _ KeyError _ v).
      * by eapply dict_get_keys.
      * intros acc''.
        rewrite (cut_edge_cases graph bestcluster keys_distinct one_label_per_node
                   u v c nbrs None acc'' Hc Hnbrs Hd).
        by rewrite decide_False.
      * intros nb acc'' Hnb.
        destruct (dict_get_is_Some nb nbrs Hnb) as [d' Hd'].
        rewrite (cut_edge_cases graph bestcluster keys_distinct one_label_per_node
                   u nb c nbrs d' acc'' Hc Hnbrs Hd').
        case_decide; [left; by eexists|]. destruct d'; [left; by eexists | by right].
    + intros u' acc' [Hnode' Hu']%filter_node_ids. by apply cut_node_ok_or.
  - intros c' acc _. unfold cut_cluster. apply for_each_ok_or.
    intros u' acc' [Hnode' Hu']%filter_node_ids. by apply cut_node_ok_or.
Qed.
End SparsityResults.

(** The graphs used below are well formed. *)
Ltac solve_listed :=
  apply (bool_decide_unpack _); vm_compute; exact I.

Ltac solve_keys_distinct :=
  split;
  [ solve_listed
  | let u := fresh "u" in
    let nbrs := fresh "nbrs" in
    let Hu := fresh "Hu" in
    intros u nbrs;
    do 7 (try destruct u as [|u]); vm_compute; intros Hu;
    try discriminate; injection Hu as <-; solve_listed ].

Ltac solve_neighbours_are_nodes :=
  let u := fresh "u" in
  let nbrs := fresh "nbrs" in
  let v := fresh "v" in
  let Hu := fresh "Hu" in
  let Hv := fresh "Hv" in
  intros u nbrs v Hu Hv;
  do 7 (try destruct u as [|u]); vm_compute in Hu;
  try discriminate; injection Hu as <-; cbn in Hv;
  repeat (apply elem_of_cons in Hv as [->|Hv]; [solve_listed|]);
  by apply elem_of_nil in Hv.

Lemma two_triangles_keys_distinct : dict_keys_distinct two_triangles.
Proof. solve_keys_distinct. Qed.

Lemma bridge_unweighted_keys_distinct : dict_keys_distinct bridge_unweighted.
Proof. solve_keys_distinct. Qed.

Lemma bridge_unweighted_closed : neighbours_are_nodes bridge_unweighted.
Proof. solve_neighbours_are_nodes. Qed.

Lemma two_triangles_closed : neighbours_are_nodes two_triangles.
Proof. solve_neighbours_are_nodes. Qed.

Lemma float_triangles_keys_distinct : dict_keys_distinct float_triangles.
Proof. solve_keys_distinct. Qed.

Lemma float_triangles_closed : neighbours_are_nodes float_triangles.
Proof. solve_neighbours_are_nodes. Qed.

Lemma float_bridge_unweighted_keys_distinct : dict_keys_distinct float_bridge_unweighted.
Proof. solve_keys_distinct. Qed.

Lemma float_bridge_unweighted_closed : neighbours_are_nodes float_bridge_unweighted.
Proof. solve_neighbours_are_nodes. Qed.

(** X6.  When all nodes are in one cluster, no edge leaves it and the
    sparsity is 0; no weight is read, so an edge without weight does not
    raise here. *)
Theorem X6_single_cluster_scores_zero
    {Node W : Type} `{EqDecision Node} `{Number W}
    (graph : Graph Node W) (c : nat) :
  dict_keys_distinct graph ->
  neighbours_are_nodes graph ->
  sparsity_of graph (replicate (length (nodes graph)) c) = Ok 0%Z.
Proof.
  intros Hkeys Hclosed.
  assert (Hlen : length (replicate (length (nodes graph)) c) = length (nodes graph))
    by apply length_replicate.
  assert (Hcluster : forall u, u ∈ nodes graph ->
            cluster_of graph (replicate (length (nodes graph)) c) u = Some c).
  { intros u Hu.
    destruct (node_has_cluster graph _ Hkeys Hlen u Hu) as [c' Hc'].
    rewrite Hc'. apply cluster_label_in in Hc'.
    by apply elem_of_replicate in Hc' as [-> _]. }
  assert (Hpair : forall u nbrs v, (u, nbrs) ∈ adjacency graph -> v ∈ nbrs.*1 ->
            cluster_of graph (replicate (length (nodes graph)) c) u
            = cluster_of graph (replicate (length (nodes graph)) c) v).
  { intros u nbrs v Hu Hv. destruct Hkeys as [Hnd _].
    apply dict_get_elem_of in Hu; [|done].
    rewrite !Hcluster; [done| |].
    - by eapply Hclosed.
    - unfold nodes. by eapply dict_get_keys. }
  rewrite sparsity_is_cut_score; [f_equal|done|done|].
  - unfold cut_score. rewrite (Zsum_ext _ (fun _ => 0%Z)); [apply Zsum_zero|].
    intros [u nbrs] Hu. rewrite (Zsum_ext _ (fun _ => 0%Z)); [apply Zsum_zero|].
    intros [v d] Hv. unfold pair_cut. rewrite decide_True; [done|].
    apply (Hpair u nbrs v Hu). apply list_elem_of_fmap. by exists (v, d).
  - intros u v d [Hedge Hdiff]. exfalso. apply Hdiff.
    unfold get_edge_data in Hedge.
    destruct (dict_get u (adjacency graph)) as [nbrs|] eqn:Hu; [|done].
    apply (Hpair u nbrs v).
    + destruct Hkeys as [Hnd _]. by apply dict_get_elem_of.
    + by eapply dict_get_keys.
Qed.

Lemma X6_single_cluster_scores_zero_witness :
  sparsity_of bridge_unweighted [0; 0; 0; 0; 0; 0] = Ok 0%Z.
Proof.
  apply (X6_single_cluster_scores_zero bridge_unweighted 0).
  - apply bridge_unweighted_keys_distinct.
  - apply bridge_unweighted_closed.
Defined.

(** X7.  When a node has a neighbour in another cluster over an edge
    without ['weight'] attribute, the sparsity evaluation raises
    [KeyError], whatever the rest of the graph and of the partition. *)
Theorem X7_unweighted_cut_edge_raises
    {Node W : Type} `{EqDecision Node} `{Number W}
    (graph : Graph Node W) (bestcluster : list nat) (u v : Node) :
  dict_keys_distinct graph ->
  length bestcluster = length (nodes graph) ->
  inter_cluster graph bestcluster u v None ->
  sparsity_of graph bestcluster = Err KeyError.
Proof. intros Hkeys Hlen. by apply sparsity_unweighted_cut. Qed.

Lemma X7_unweighted_cut_edge_raises_witness :
  sparsity_of bridge_unweighted [0; 1; 0; 1; 0; 1] = Err KeyError.
Proof.
  apply (X7_unweighted_cut_edge_raises bridge_unweighted [0; 1; 0; 1; 0; 1] 3 2).
  - apply bridge_unweighted_keys_distinct.
  - reflexivity.
  - split; [vm_compute; reflexivity | vm_compute; discriminate].
Defined.

(** X8.  When every edge between two clusters has a weight, the
    sparsity evaluation returns the signed cut: the sum, over every node
    and every neighbour of it in another cluster, of 1 for a positive
    weight and -1 for any other.  It does not depend on the order in which
    the labels are visited, and an edge of an undirected graph counts
    from both ends. *)
Theorem X8_sparsity_is_signed_cut
    {Node W : Type} `{EqDecision Node} `{Number W}
    (graph : Graph Node W) (bestcluster : list nat) :
  dict_keys_distinct graph ->
  length bestcluster = length (nodes graph) ->
  (forall u v d, inter_cluster graph bestcluster u v d -> d <> None) ->
  sparsity_of graph bestcluster = Ok (cut_score graph bestcluster).
Proof. intros Hkeys Hlen Hweighted. by apply sparsity_is_cut_score. Qed.

Lemma X8_sparsity_is_signed_cut_witness :
  sparsity_of two_triangles [0; 1; 0; 1; 2; 2]
  = Ok (cut_score two_triangles [0; 1; 0; 1; 2; 2])
  /\ cut_score two_triangles [0; 1; 0; 1; 2; 2] = 10%Z.
Proof.
  split; [|vm_compute; reflexivity].
  apply (X8_sparsity_is_signed_cut two_triangles [0; 1; 0; 1; 2; 2]).
  - apply two_triangles_keys_distinct.
  - reflexivity.
  - intros u v d [Hedge _].
    do 7 (try destruct u as [|u]); do 7 (try destruct v as [|v]);
      vm_compute in Hedge; try discriminate; by injection Hedge as <-.
Defined.

(** ** Diffusion on a well-formed graph *)

(** A loop whose body cannot raise does not raise. *)
Lemma for_each_total {A B} (P : B -> Prop) (Q : A -> Prop)
    (f : B -> A -> Result B) (l : list A) :
  (forall b a, P b -> Q a -> exists b', f b a = Ok b' /\ P b') ->
  Forall Q l ->
  forall acc, P acc -> exists acc', for_each f l acc = Ok acc' /\ P acc'.
Proof.
  intros Hstep. induction l as [|x l IH]; intros Hl acc Hacc; simpl; [eauto|].
  apply Forall_cons in Hl as [Hx Hl].
  destruct (Hstep acc x Hacc Hx) as (acc1 & -> & Hacc1). simpl. eauto.
Qed.

Lemma add_at_square {W : Type} `{Number W} (n : nat) (m : Matrix W) (i j : nat) (v : W) :
  square n m -> i < n -> j < n ->
  exists m', add_at m i j v = Ok m' /\ square n m'.
Proof.
  intros [Hlen Hrows] Hi Hj. unfold add_at.
  destruct (m !! i) as [row|] eqn:Hrow; [|apply lookup_ge_None in Hrow; lia].
  pose proof (Forall_lookup_1 _ _ _ _ Hrows Hrow) as Hrowlen. simpl in Hrowlen.
  destruct (row !! j) as [x|] eqn:Hx; [|apply lookup_ge_None in Hx; lia].
  eexists. split; [done|]. split; [by rewrite length_insert|].
  apply Forall_insert; [done|]. by rewrite length_insert.
Qed.

Lemma zeros_square {W : Type} `{Number W} (n : nat) : square n (zeros n : Matrix W).
Proof.
  split; [apply length_replicate|].
  apply Forall_forall. intros row [-> _]%elem_of_replicate. apply length_replicate.
Qed.

Section DiffusionTotal.
Context {Node W : Type} `{EqDecision Node} `{Number W}.
Variable graph : Graph Node W.
Hypothesis distinct_nodes : NoDup (nodes graph).
Hypothesis closed : neighbours_are_nodes graph.
Variable out : list string.

(** What the loops of lines 134-152 keep: the shape of the matrix, an
    output that only grew by warnings, and a frontier made of nodes. *)
Let sound (s : Spread) : Prop :=
  square (length (nodes graph)) (sp_adj s)
  /\ (exists k, sp_stdout s = out ++ replicate k missing_weight_msg)
  /\ Forall (fun nbs : list (Node * W) => forall n, n ∈ nbs.*1 -> n ∈ nodes graph)
            (sp_new_upper s).

Lemma node_index (n : Node) :
  n ∈ nodes graph ->
  exists i, i < length (nodes graph) /\ dict_item n (adj_index graph) = Ok i.
Proof.
  intros [i Hi]%list_elem_of_lookup_1. exists i.
  split; [by eapply lookup_lt_Some|].
  unfold dict_item. by rewrite (proj2 (adj_index_lookup graph distinct_nodes n i) Hi).
Qed.

Lemma spread_edge_total (node nb new_nb : Node) (nbs : list (Node * W))
    (nbrs : list (Node * option W)) (s : Spread) :
  sound s -> node ∈ nodes graph ->
  dict_get nb (adjacency graph) = Some nbrs ->
  new_nb ∈ nbrs.*1 -> nb ∈ nbs.*1 ->
  exists s', spread_edge graph node nbs nb s new_nb = Ok s' /\ sound s'.
Proof.
  intros (Hsq & [k Hout] & Hupper) Hnode Hnbrs Hnew Hnb.
  unfold spread_edge.
  destruct (dict_get_is_Some new_nb nbrs Hnew) as [d Hd].
  destruct (dict_get_is_Some nb nbs Hnb) as [mag Hmag].
  destruct (node_index node Hnode) as (i & Hi & ->).
  destruct (node_index new_nb (closed nb nbrs new_nb Hnbrs Hnew)) as (j & Hj & ->).
  assert (Hweight : exists weight k',
            weight_or_default graph nb new_nb (sp_stdout s)
            = Ok (weight, out ++ replicate k' missing_weight_msg)).
  { unfold weight_or_default, edge_weight, get_edge_data. rewrite Hnbrs, Hd, Hout.
    destruct d as [w|]; [by exists w, k|].
    exists one, (S k). by rewrite replicate_S_end, app_assoc. }
  destruct Hweight as (weight & k' & ->). cbn [bind].
  unfold dict_item at 1. rewrite Hmag. cbn [bind].
  destruct (add_at_square _ (sp_adj s) i j (mul weight mag) Hsq Hi Hj)
    as (m1 & -> & Hsq1). cbn [bind].
  destruct (add_at_square _ m1 j i (mul weight mag) Hsq1 Hj Hi)
    as (m2 & -> & Hsq2). cbn [bind].
  eexists. split; [done|]. repeat split; cbn [sp_adj sp_stdout sp_new_upper].
  - apply Hsq2.
  - apply Hsq2.
  - by exists k'.
  - apply Forall_app. split; [done|]. apply Forall_singleton.
    intros n. cbn. intros Hn%list_elem_of_singleton. subst n.
    by eapply closed.
Qed.

Lemma spread_dict_total (node : Node) (nbs : list (Node * W)) (s : Spread) :
  sound s -> node ∈ nodes graph ->
  (forall n, n ∈ nbs.*1 -> n ∈ nodes graph) ->
  exists s', spread_dict graph node s nbs = Ok s' /\ sound s'.
Proof.
  intros Hs Hnode Hnbs. unfold spread_dict.
  apply (for_each_total sound (fun nb => nb ∈ nbs.*1)); [|by apply Forall_forall|done].
  intros s1 nb Hs1 Hnb. unfold spread_node, neighbors.
  destruct (dict_get_is_Some nb (adjacency graph) (Hnbs nb Hnb)) as [nbrs Hnbrs].
  rewrite Hnbrs. cbn [bind].
  apply (for_each_total sound (fun new_nb => new_nb ∈ nbrs.*1));
    [|by apply Forall_forall|done].
  intros s2 new_nb Hs2 Hnew. by eapply spread_edge_total.
Qed.

Lemma hops_total (node : Node) (n : nat) (adj : Matrix W) (out1 : list string)
    (upper_diff : list (list (Node * W))) :
  node ∈ nodes graph ->
  square (length (nodes graph)) adj ->
  (exists k, out1 = out ++ replicate k missing_weight_msg) ->
  Forall (fun nbs : list (Node * W) => forall n, n ∈ nbs.*1 -> n ∈ nodes graph)
         upper_diff ->
  exists adj' k,
    hops graph node n adj out1 upper_diff
    = Ok (adj', out ++ replicate k missing_weight_msg)
    /\ square (length (nodes graph)) adj'.
Proof.
  intros Hnode. revert adj out1 upper_diff.
  induction n as [|n IH]; intros adj out1 upper_diff Hsq [k ->] Hupper; simpl.
  - by exists adj, k.
  - assert (Hstep : forall (s1 : Spread) (nbs : list (Node * W)),
              sound s1 -> (forall n, n ∈ nbs.*1 -> n ∈ nodes graph) ->
              exists s', spread_dict graph node s1 nbs = Ok s' /\ sound s').
    { intros s1 nbs Hs1 Hnbs. by apply spread_dict_total. }
    assert (Hs0 : sound {| sp_adj := adj;
                           sp_stdout := out ++ replicate k missing_weight_msg;
                           sp_new_upper := [] |}).
    { split; [done|]. split; [by exists k | done]. }
    destruct (for_each_total sound _ _ upper_diff Hstep Hupper _ Hs0)
      as (s & -> & Hsq' & Hout' & Hupper').
    cbn [bind]. by apply IH.
Qed.
End DiffusionTotal.

(** X2.  On a graph with float weights whose nodes are distinct and
    whose neighbours are all nodes, the diffusion from a node of the graph
    into a matrix with one row and one column for each node never raises,
    whether edges have a weight or not: it returns a matrix of the same
    shape, and all it writes is the warning about a missing weight, some
    number of times. *)
Theorem X2_diffusion_never_raises
    {Node : Type} `{EqDecision Node}
    (graph : Graph Node float) (node : Node) (diff_range : Z)
    (adj : Matrix float) (out : list string) :
  NoDup (nodes graph) ->
  neighbours_are_nodes graph ->
  node ∈ nodes graph ->
  square (length (nodes graph)) adj ->
  exists adj' k,
    diffuse graph node diff_range adj out
    = Ok (adj', out ++ replicate k missing_weight_msg)
    /\ square (length (nodes graph)) adj'.
Proof.
  intros Hnd Hclosed Hnode Hsq. unfold diffuse.
  apply hops_total; try done.
  - exists 0. by rewrite app_nil_r.
  - apply Forall_singleton. cbn. by intros n ->%list_elem_of_singleton.
Qed.

Lemma X2_diffusion_never_raises_witness :
  exists adj' k,
    diffuse float_bridge_unweighted 2 3 (zeros 6) []
    = Ok (adj', [] ++ replicate k missing_weight_msg)
    /\ square (length (nodes float_bridge_unweighted)) adj'.
Proof.
  apply (X2_diffusion_never_raises float_bridge_unweighted 2 3 (zeros 6) []).
  - apply float_bridge_unweighted_keys_distinct.
  - apply float_bridge_unweighted_closed.
  - solve_listed.
  - apply zeros_square.
Defined.

(** ** Rounds without a candidate *)

Lemma choice_nonempty {A} (rnd : nat) (l : list A) :
  l <> [] -> exists x, choice rnd l = Ok x /\ x ∈ l.
Proof.
  intros Hl. unfold choice.
  destruct (l !! (rnd mod length l)) as [x|] eqn:Hx.
  - exists x. split; [done|]. by eapply list_elem_of_lookup_2.
  - exfalso. apply lookup_ge_None in Hx.
    assert (length l <> 0) by (destruct l; [done|simpl; lia]).
    pose proof (Nat.mod_upper_bound rnd (length l)). lia.
Qed.

Section NoCandidate.
Context {Node W : Type} `{EqDecision Node} `{Number W}.
Variable ext : Externals W.
Variable graph : Graph Node W.
Variables limit diff_range max_clusters iterations : Z.
Hypothesis distinct_nodes : NoDup (nodes graph).
Hypothesis closed : neighbours_are_nodes graph.
Hypothesis nonempty : nodes graph <> [].
Hypothesis no_candidate : (max_clusters <= 0)%Z.

(** [range(1, max_clusters+1)] is empty: the baseline is alone. *)
Lemma select_no_candidate (r : nat) (adj : Matrix W) :
  select ext r max_clusters adj = Ok 0.
Proof.
  unfold select. replace (Z.to_nat max_clusters) with 0 by lia. reflexivity.
Qed.

Lemma baseline_body (st : RunState W) :
  square (length (nodes graph)) (adj st) ->
  exists st',
    manca_body ext graph diff_range max_clusters st = Ok st'
    /\ square (length (nodes graph)) (adj st')
    /\ delay st' = delay st /\ iters st' = iters st
    /\ rounds st' = S (rounds st).
Proof.
  intros Hsq. unfold manca_body, loop_body, manca_diffuse_select, seed.
  destruct (choice_nonempty (ext_choice ext (rounds st)) (nodes graph) nonempty)
    as (node & -> & Hnode). cbn [bind].
  destruct (hops_total graph distinct_nodes closed (stdout st)
              node (Z.to_nat diff_range) (adj st) (stdout st)
              [dict_set node one []] Hnode Hsq)
    as (adj' & k & Hdiff & Hsq').
  - exists 0. by rewrite app_nil_r.
  - apply Forall_singleton. cbn. by intros n ->%list_elem_of_singleton.
  - unfold diffuse. rewrite Hdiff. cbn [bind]. rewrite select_no_candidate.
    cbn [bind Nat.eqb]. eexists. split; [done|]. by cbn.
Qed.

Lemma baseline_loop (fuel : nat) (st : RunState W) :
  (0 < limit)%Z -> (0 < iterations)%Z ->
  square (length (nodes graph)) (adj st) ->
  delay st = 0%Z -> iters st = 0%Z ->
  exists st',
    manca_loop ext graph limit diff_range max_clusters iterations fuel st = Running st'
    /\ rounds st' = fuel + rounds st.
Proof.
  intros Hlimit Hiter. revert st.
  induction fuel as [|fuel IH]; intros st Hsq Hd Hi; unfold manca_loop;
    cbn [while_loop].
  - replace (loop_cond limit iterations st) with true; [by exists st|].
    symmetry. unfold loop_cond. rewrite Hd, Hi.
    apply andb_true_intro. split; by apply Z.ltb_lt.
  - replace (loop_cond limit iterations st) with true.
    2:{ symmetry. unfold loop_cond. rewrite Hd, Hi.
        apply andb_true_intro. split; by apply Z.ltb_lt. }
    destruct (baseline_body st Hsq) as (st1 & Hbody & Hsq1 & Hd1 & Hi1 & Hr1).
    unfold manca_body in Hbody. rewrite Hbody.
    destruct (IH st1 Hsq1) as (st' & Hrun & Hr'); [congruence..|].
    exists st'. split; [exact Hrun|lia].
Qed.
End NoCandidate.

(** X13.  With [max_clusters <= 0] no candidate is scored and every
    round is won by the baseline.  On a well-formed graph with a node and
    float weights, and positive [limit] and [iterations], no round raises
    or is counted: the loop never exits and [cluster_graph] never
    returns. *)
Theorem X13_no_candidate_never_returns
    {Node : Type} `{EqDecision Node}
    (ext : Externals float) (graph : Graph Node float)
    (limit diff_range max_clusters iterations : Z) (fuel : nat) :
  NoDup (nodes graph) ->
  neighbours_are_nodes graph ->
  nodes graph <> [] ->
  (0 < limit)%Z -> (0 < iterations)%Z ->
  (max_clusters <= 0)%Z ->
  cluster_graph ext graph limit diff_range max_clusters iterations fuel = NoResult.
Proof.
  intros Hnd Hclosed Hne Hlimit Hiter Hmc.
  destruct (baseline_loop ext graph limit diff_range max_clusters iterations
              Hnd Hclosed Hne Hmc fuel (init graph) Hlimit Hiter)
    as (st & Hrun & _); [apply zeros_square|done..|].
  unfold cluster_graph. by rewrite Hrun.
Qed.

Lemma X13_no_candidate_never_returns_witness :
  cluster_graph (ext_float_triangles 0) float_triangles 100 3 0 1000 25 = NoResult.
Proof.
  apply (X13_no_candidate_never_returns
           (ext_float_triangles 0) float_triangles 100 3 0 1000 25).
  - apply float_triangles_keys_distinct.
  - apply float_triangles_closed.
  - discriminate.
  - lia.
  - lia.
  - lia.
Defined.

(** ** Runs that cannot raise *)

Section NeverRaises.
Context {Node W : Type} `{EqDecision Node} `{Number W}.
Variable ext : Externals W.
Variable graph : Graph Node W.
Variables limit diff_range max_clusters iterations : Z.
Hypothesis keys_distinct : dict_keys_distinct graph.
Hypothesis closed : neighbours_are_nodes graph.
Hypothesis nonempty : nodes graph <> [].
Hypothesis weighted : forall u v d, get_edge_data graph u v = Some d -> d <> None.
(** k-means returns on the matrix that a round of the run hands to it,
    for the cluster counts [1 .. max_clusters]. *)
Hypothesis kmeans_returns :
  forall st node adj1 out1 call k,
    rtc (manca_step ext graph limit diff_range max_clusters iterations)
        (init graph) st ->
    loop_cond limit iterations st = true ->
    seed ext graph (rounds st) = Ok node ->
    diffuse graph node diff_range (adj st) (stdout st) = Ok (adj1, out1) ->
    1 <= k <= Z.to_nat max_clusters ->
    exists labelling, ext_kmeans ext (rounds st) call k adj1 = Ok labelling.

Lemma fit_predict_returns (r : nat) (call : KMeansCall) (k : nat) (adj1 : Matrix W) :
  (exists labelling, ext_kmeans ext r call k adj1 = Ok labelling) ->
  exists labels,
    fit_predict ext r call k adj1 = Ok labels /\ length labels = length adj1.
Proof.
  intros [labelling Hk]. unfold fit_predict. rewrite Hk.
  eexists. split; [done|]. by rewrite length_fmap, length_seq.
Qed.

(** When k-means returns for every candidate, [select] returns, and
    what it returns is the index of a score. *)
Lemma select_returns (r : nat) (adj1 : Matrix W) :
  (forall k, 1 <= k <= Z.to_nat max_clusters ->
             exists labelling, ext_kmeans ext r Candidate k adj1 = Ok labelling) ->
  exists topscore,
    select ext r max_clusters adj1 = Ok topscore
    /\ topscore <= Z.to_nat max_clusters.
Proof.
  intros Hk.
  assert (Hsel : exists topscore, select ext r max_clusters adj1 = Ok topscore).
  { unfold select.
    destruct (for_each_total (fun _ => True)
                (fun k => 1 <= k <= Z.to_nat max_clusters)
                (score_candidate ext r adj1) (seq 1 (Z.to_nat max_clusters)))
      with (acc := [score_or_zero ext adj1 (randomclust ext r adj1)])
      as (sh & -> & _); [| |done|by eexists].
    - intros sh k _ Hrange. unfold score_candidate.
      destruct (fit_predict_returns r Candidate k adj1 (Hk k Hrange))
        as (labels & -> & _).
      by eexists.
    - apply Forall_forall. intros k Hin%elem_of_seq. lia. }
  destruct Hsel as [topscore Hsel]. exists topscore. split; [done|].
  apply select_scores in Hsel as (scores & -> & Hall).
  apply Forall2_length in Hall. rewrite length_seq in Hall.
  unfold argmax.
  destruct (argmax_from_range 0 (score_or_zero ext adj1 (randomclust ext r adj1))
              1 scores) as [->|?]; lia.
Qed.

(** A round of the run returns. *)
Lemma body_returns (st : RunState W) :
  rtc (manca_step ext graph limit diff_range max_clusters iterations) (init graph) st ->
  loop_cond limit iterations st = true ->
  square (length (nodes graph)) (adj st) ->
  exists st',
    manca_body ext graph diff_range max_clusters st = Ok st'
    /\ square (length (nodes graph)) (adj st').
Proof.
  intros Hreach Hcond Hsq.
  destruct (choice_nonempty (ext_choice ext (rounds st)) (nodes graph) nonempty)
    as (node & Hchoice & Hnode).
  assert (Hseed : seed ext graph (rounds st) = Ok node) by exact Hchoice.
  destruct keys_distinct as [Hnd _].
  destruct (hops_total graph Hnd closed (stdout st)
              node (Z.to_nat diff_range) (adj st) (stdout st)
              [dict_set node one []] Hnode Hsq)
    as (adj' & n & Hhops & Hsq').
  { exists 0. by rewrite app_nil_r. }
  { apply Forall_singleton. cbn. by intros x ->%list_elem_of_singleton. }
  assert (Hdiff : diffuse graph node diff_range (adj st) (stdout st)
                  = Ok (adj', stdout st ++ replicate n missing_weight_msg))
    by exact Hhops.
  destruct (select_returns (rounds st) adj') as (topscore & Hsel & Hle).
  { intros k Hk. by eapply kmeans_returns. }
  unfold manca_body, loop_body, manca_diffuse_select.
  rewrite Hseed. cbn [bind]. rewrite Hdiff. cbn [bind]. rewrite Hsel. cbn [bind].
  destruct (topscore =? 0)%nat eqn:Htop; [eexists; split; [done|]; by cbn|].
  apply Nat.eqb_neq in Htop.
  unfold manca_cluster_cut.
  destruct (fit_predict_returns (rounds st) Refit topscore adj')
    as (labels & -> & Hlen).
  { eapply kmeans_returns; [done..|lia]. }
  cbn [bind].
  rewrite (sparsity_is_cut_score graph labels keys_distinct).
  - cbn [bind]. eexists. split; [done|]. by cbn.
  - destruct Hsq' as [Hrows _]. congruence.
  - intros u v d [Hedge _]. by eapply weighted.
Qed.

Lemma loop_never_fails (fuel : nat) (st : RunState W) (e : PyExn) :
  rtc (manca_step ext graph limit diff_range max_clusters iterations) (init graph) st ->
  square (length (nodes graph)) (adj st) ->
  manca_loop ext graph limit diff_range max_clusters iterations fuel st <> Failed e.
Proof.
  revert st. induction fuel as [|fuel IH]; intros st Hreach Hsq; unfold manca_loop;
    cbn [while_loop];
    destruct (loop_cond limit iterations st) eqn:Hcond; try done.
  destruct (body_returns st Hreach Hcond Hsq) as (st1 & Hbody & Hsq1).
  unfold manca_body in Hbody. rewrite Hbody. apply IH; [|done].
  eapply rtc_r; [exact Hreach|]. by split.
Qed.
End NeverRaises.

(** X14.  On a well-formed graph with a node, where every edge has a
    weight and the weights are floats, with positive [limit] and
    [iterations], [cluster_graph] never raises as long as k-means does
    not: if k-means returns on the matrix that each round of the run
    hands to it, for the cluster counts [1 .. max_clusters], then
    [cluster_graph] returns the labelled graph, or its loop goes on. *)
Theorem X14_weighted_graph_never_raises
    {Node : Type} `{EqDecision Node}
    (ext : Externals float) (graph : Graph Node float)
    (limit diff_range max_clusters iterations : Z) (fuel : nat) (e : PyExn) :
  dict_keys_distinct graph ->
  neighbours_are_nodes graph ->
  nodes graph <> [] ->
  (forall u v d, get_edge_data graph u v = Some d -> d <> None) ->
  (forall st node adj1 out1 call k,
      rtc (manca_step ext graph limit diff_range max_clusters iterations)
          (init graph) st ->
      loop_cond limit iterations st = true ->
      seed ext graph (rounds st) = Ok node ->
      diffuse graph node diff_range (adj st) (stdout st) = Ok (adj1, out1) ->
      1 <= k <= Z.to_nat max_clusters ->
      exists labelling, ext_kmeans ext (rounds st) call k adj1 = Ok labelling) ->
  (0 < limit)%Z -> (0 < iterations)%Z ->
  cluster_graph ext graph limit diff_range max_clusters iterations fuel <> Raised e.
Proof.
  intros Hkeys Hclosed Hne Hweighted Hkmeans Hlimit Hiter.
  unfold cluster_graph.
  pose proof (loop_never_fails ext graph limit diff_range max_clusters iterations
                Hkeys Hclosed Hne Hweighted Hkmeans fuel (init graph)) as Hloop.
  pose proof (while_loop_reaches limit iterations
                (manca_diffuse_select ext graph diff_range max_clusters)
                (manca_cluster_cut ext graph) fuel (init graph)) as Hreach.
  unfold manca_loop in *.
  destruct (while_loop _ _ _ _ fuel (init graph)) as [st|e'|st] eqn:Hrun; [| |done].
  - destruct Hreach as [Hrtc Hcond].
    destruct (exit_state ext graph limit diff_range max_clusters iterations st Hrtc)
      as [->|[Hc|[labels Hlab]]].
    + exfalso. unfold loop_cond in Hcond. cbn [delay iters init] in Hcond.
      apply andb_false_iff in Hcond as [Hc|Hc]; apply Z.ltb_ge in Hc; lia.
    + congruence.
    + destruct (reachable_shape _ _ _ _ _ _ _ Hrtc) as [_ Hshape].
      destruct Hkeys as [Hnd _].
      by rewrite (finish_labels graph st labels Hnd Hlab (Hshape labels Hlab)).
  - exfalso. eapply Hloop; [apply rtc_refl | apply zeros_square | reflexivity].
Qed.

Lemma X14_weighted_graph_never_raises_witness :
  cluster_graph (ext_float_triangles 0) float_triangles 3 3 2 1000 40
  <> Raised ValueError.
Proof.
  apply (X14_weighted_graph_never_raises
           (ext_float_triangles 0) float_triangles 3 3 2 1000 40).
  - apply float_triangles_keys_distinct.
  - apply float_triangles_closed.
  - discriminate.
  - intros u v d Hedge.
    do 7 (try destruct u as [|u]); do 7 (try destruct v as [|v]);
      vm_compute in Hedge; try discriminate; by injection Hedge as <-.
  - intros st node adj1 out1 call k Hreach _ _ Hdiff Hk.
    apply reachable_shape in Hreach as [Hlen _].
    apply diffuse_length in Hdiff. rewrite Hlen in Hdiff.
    cbn [ext_kmeans ext_float_triangles]. rewrite Hdiff.
    change (Z.to_nat 2) with 2 in Hk.
    destruct k as [|[|[|k]]]; [lia| | |lia]; eexists; reflexivity.
  - lia.
  - lia.
Defined.

(** ** One hop of diffusion *)

Section OneHop.
Context {Node W : Type} `{EqDecision Node} `{Number W}.
Variable graph : Graph Node W.
Hypothesis keys_distinct : dict_keys_distinct graph.

(** What lines 141-151 do for the neighbour [new_nb] of the seed itself. *)
Lemma spread_edge_inv (node new_nb : Node) (nbrs : list (Node * option W))
    (s s' : Spread) :
  dict_get node (adjacency graph) = Some nbrs ->
  spread_edge graph node [(node, one)] node s new_nb = Ok s' ->
  exists d i j m1,
    dict_get new_nb nbrs = Some d
    /\ dict_get node (adj_index graph) = Some i
    /\ dict_get new_nb (adj_index graph) = Some j
    /\ add_at (sp_adj s) i j (mul (weight_or_one d) one) = Ok m1
    /\ add_at m1 j i (mul (weight_or_one d) one) = Ok (sp_adj s').
Proof.
  intros Hnbrs. unfold spread_edge. intros Hs.
  bind_inv Hs as [weight out1] Hw. bind_inv Hs as mag Hmag.
  bind_inv Hs as i Hi. bind_inv Hs as j Hj.
  bind_inv Hs as m1 H1. bind_inv Hs as m2 H2. injection Hs as <-.
  unfold dict_item in Hmag, Hi, Hj. simpl in Hmag.
  rewrite decide_True in Hmag by done. injection Hmag as <-.
  destruct (dict_get node (adj_index graph)) as [i'|]; [injection Hi as ->|done].
  destruct (dict_get new_nb (adj_index graph)) as [j'|]; [injection Hj as ->|done].
  unfold weight_or_default, edge_weight, get_edge_data in Hw. rewrite Hnbrs in Hw.
  destruct (dict_get new_nb nbrs) as [d|]; [|done].
  exists d, i, j, m1. simpl.
  assert (weight = weight_or_one d) as ->
    by (destruct d; by injection Hw as <-).
  done.
Qed.

(** The entries of the seed's row after lines 140-151 for a list of
    distinct neighbours. *)
Lemma spread_edges_row (node t : Node) (nbrs : list (Node * option W)) (i j : nat)
    (keys : list Node) (s s' : Spread) :
  dict_get node (adjacency graph) = Some nbrs ->
  dict_get node (adj_index graph) = Some i ->
  dict_get t (adj_index graph) = Some j ->
  i <> j ->
  NoDup keys ->
  for_each (spread_edge graph node [(node, one)] node) keys s = Ok s' ->
  entry (sp_adj s') i j
  = if decide (t ∈ keys)
    then match dict_get t nbrs with
         | Some d => (fun x => add x (mul (weight_or_one d) one)) <$> entry (sp_adj s) i j
         | None => entry (sp_adj s) i j
         end
    else entry (sp_adj s) i j.
Proof.
  intros Hnbrs Hi Hj Hij. destruct keys_distinct as [Hnd _].
  revert s. induction keys as [|k keys IH]; intros s Hkeys Hrun; simpl in Hrun.
  - injection Hrun as <-. rewrite decide_False; [done|]. by intros ?%elem_of_nil.
  - apply NoDup_cons in Hkeys as [Hk Hkeys].
    bind_inv Hrun as s1 Hedge.
    apply (spread_edge_inv node k nbrs) in Hedge
      as (d & i' & jk & m1 & Hd & Hi' & Hjk & H1 & H2); [|done].
    assert (i' = i) as -> by congruence.
    rewrite (IH s1 Hkeys Hrun).
    rewrite (entry_add_at _ _ _ _ _ H2), (entry_add_at _ _ _ _ _ H1).
    rewrite (decide_False (P := i = jk /\ j = i)) by (intros [_ ?]; congruence).
    destruct (decide (t = k)) as [->|Hne].
    + assert (jk = j) as -> by congruence.
      rewrite (decide_True (P := i = i /\ j = j)) by done.
      rewrite (decide_False (P := k ∈ keys)) by done.
      rewrite (decide_True (P := k ∈ k :: keys)) by (by left).
      by rewrite Hd.
    + assert (j <> jk).
      { intros ->. apply Hne.
        apply (adj_index_lookup graph Hnd) in Hj, Hjk. congruence. }
      rewrite (decide_False (P := i = i /\ j = jk)) by (intros [_ ?]; done).
      destruct (decide (t ∈ keys)) as [Hin|Hout].
      * by rewrite (decide_True (P := t ∈ k :: keys)) by (by right).
      * rewrite (decide_False (P := t ∈ k :: keys)); [done|].
        rewrite not_elem_of_cons. done.
Qed.

Lemma one_hop_row (node t : Node) (adj adj' : Matrix W) (out out' : list string)
    (i j : nat) :
  dict_get node (adj_index graph) = Some i ->
  dict_get t (adj_index graph) = Some j ->
  i <> j ->
  diffuse graph node 1 adj out = Ok (adj', out') ->
  entry adj' i j
  = match get_edge_data graph node t with
    | Some d => (fun x => add x (mul (weight_or_one d) one)) <$> entry adj i j
    | None => entry adj i j
    end.
Proof.
  intros Hi Hj Hij. unfold diffuse. cbn [Z.to_nat Pos.to_nat Pos.iter_op hops].
  intros Hrun. bind_inv Hrun as s Hfor. injection Hrun as <- <-.
  cbn [dict_set for_each] in Hfor. bind_inv Hfor as s1 Hdict. injection Hfor as <-.
  unfold spread_dict in Hdict. cbn [fmap list_fmap fst for_each] in Hdict.
  bind_inv Hdict as s2 Hnode. injection Hdict as <-.
  unfold spread_node, neighbors in Hnode.
  destruct (dict_get node (adjacency graph)) as [nbrs|] eqn:Hnbrs; [|done].
  cbn [bind] in Hnode.
  destruct keys_distinct as [_ Hkeys]. specialize (Hkeys node nbrs Hnbrs).
  rewrite (spread_edges_row node t nbrs i j (nbrs.*1) _ s2 Hnbrs Hi Hj Hij Hkeys Hnode).
  unfold get_edge_data. rewrite Hnbrs. cbn [sp_adj].
  destruct (dict_get t nbrs) as [d|] eqn:Hd.
  - rewrite decide_True; [done|]. by eapply dict_get_keys.
  - by case_decide.
Qed.
End OneHop.

(** X3.  With [diff_range = 1], the diffusion from the seed (row [i])
    adds to [adj[i][j]], for every other node (column [j]), the weight of
    the edge from the seed to that node times 1.0, taking 1.0 for an edge
    without weight, and leaves the entry as it is when there is no such
    edge: one round writes the seed's row of the weighted adjacency
    matrix. *)
Theorem X3_one_hop_adds_edge_weights
    {Node W : Type} `{EqDecision Node} `{Number W}
    (graph : Graph Node W) (node t : Node) (adj adj' : Matrix W)
    (out out' : list string) (i j : nat) :
  dict_keys_distinct graph ->
  dict_get node (adj_index graph) = Some i ->
  dict_get t (adj_index graph) = Some j ->
  i <> j ->
  diffuse graph node 1 adj out = Ok (adj', out') ->
  entry adj' i j
  = match get_edge_data graph node t with
    | Some d => (fun x => add x (mul (weight_or_one d) one)) <$> entry adj i j
    | None => entry adj i j
    end.
Proof. intros Hkeys. by apply one_hop_row. Qed.

Lemma X3_one_hop_adds_edge_weights_witness :
  exists adj',
    diffuse two_triangles 2 1 (zeros 6) [] = Ok (adj', [])
    /\ entry adj' 2 3 = Some (0 + 1 * 1)%Z
    /\ entry adj' 2 4 = Some 0%Z.
Proof.
  exists [[0; 0; 1; 0; 0; 0]; [0; 0; 1; 0; 0; 0]; [1; 1; 0; 1; 0; 0];
          [0; 0; 1; 0; 0; 0]; [0; 0; 0; 0; 0; 0]; [0; 0; 0; 0; 0; 0]]%Z.
  assert (Hrun : diffuse two_triangles 2 1 (zeros 6) []
                 = Ok ([[0; 0; 1; 0; 0; 0]; [0; 0; 1; 0; 0; 0]; [1; 1; 0; 1; 0; 0];
                        [0; 0; 1; 0; 0; 0]; [0; 0; 0; 0; 0; 0];
                        [0; 0; 0; 0; 0; 0]]%Z, []))
    by (vm_compute; reflexivity).
  split; [exact Hrun|]. split.
  - exact (X3_one_hop_adds_edge_weights two_triangles 2 3 (zeros 6) _ [] [] 2 3
             two_triangles_keys_distinct eq_refl eq_refl
             ltac:(discriminate) Hrun).
  - exact (X3_one_hop_adds_edge_weights two_triangles 2 4 (zeros 6) _ [] [] 2 4
             two_triangles_keys_distinct eq_refl eq_refl
             ltac:(discriminate) Hrun).
Defined.

(** ** What is written *)

Section Output.
Context {Node W : Type} `{EqDecision Node} `{Number W}.
Variable ext : Externals W.
Variable graph : Graph Node W.
Variables limit diff_range max_clusters iterations : Z.

Lemma spread_edge_stdout (out : list string) (node nb new_nb : Node)
    (nbs : list (Node * W)) (s s' : Spread) :
  (exists k, sp_stdout s = out ++ replicate k missing_weight_msg) ->
  spread_edge graph node nbs nb s new_nb = Ok s' ->
  exists k, sp_stdout s' = out ++ replicate k missing_weight_msg.
Proof.
  intros [k Hout]. unfold spread_edge. intros Hs.
  bind_inv Hs as [weight out1] Hw. bind_inv Hs as mag Hmag.
  bind_inv Hs as i Hi. bind_inv Hs as j Hj.
  bind_inv Hs as m1 H1. bind_inv Hs as m2 H2. injection Hs as <-. cbn.
  unfold weight_or_default in Hw.
  destruct (edge_weight graph nb new_nb) as [w|[]]; try done.
  - injection Hw as _ <-. by exists k.
  - injection Hw as _ <-. exists (S k).
    by rewrite Hout, replicate_S_end, app_assoc.
Qed.

Lemma diffuse_stdout (node : Node) (adj adj' : Matrix W) (out out' : list string) :
  diffuse graph node diff_range adj out = Ok (adj', out') ->
  exists k, out' = out ++ replicate k missing_weight_msg.
Proof.
  unfold diffuse. generalize [dict_set node one []]. generalize (Z.to_nat diff_range).
  intros n upper_diff Hhops.
  assert (Hgen : forall n adj1 out1 upper,
            (exists k, out1 = out ++ replicate k missing_weight_msg) ->
            hops graph node n adj1 out1 upper = Ok (adj', out') ->
            exists k, out' = out ++ replicate k missing_weight_msg).
  { clear. induction n as [|n IH]; intros adj1 out1 upper Hout Hrun; simpl in Hrun.
    - by injection Hrun as _ <-.
    - bind_inv Hrun as s Hfor. eapply IH; [|exact Hrun].
      eapply (for_each_inv
                (fun s => exists k, sp_stdout s = out ++ replicate k missing_weight_msg));
        [| |exact Hfor]; [|exact Hout].
      intros s1 nbs s2 Hs1 Hdict. unfold spread_dict in Hdict.
      eapply (for_each_inv
                (fun s => exists k, sp_stdout s = out ++ replicate k missing_weight_msg));
        [| |exact Hdict]; [|exact Hs1].
      intros s3 nb s4 Hs3 Hnode. unfold spread_node in Hnode.
      bind_inv Hnode as new_nbs Hnbs.
      eapply (for_each_inv
                (fun s => exists k, sp_stdout s = out ++ replicate k missing_weight_msg));
        [| |exact Hnode]; [|exact Hs3].
      intros s5 new_nb s6 Hs5 Hedge. by eapply spread_edge_stdout. }
  eapply Hgen; [|exact Hhops]. exists 0. by rewrite app_nil_r.
Qed.

Lemma reachable_stdout (st : RunState W) :
  rtc (manca_step ext graph limit diff_range max_clusters iterations) (init graph) st ->
  exists k, stdout st = replicate k missing_weight_msg.
Proof.
  revert st. apply rtc_ind_r; [by exists 0|].
  intros st1 st2 _ [_ Hbody] [k Hk].
  apply manca_body_adj in Hbody as (_ & node & _ & Hdiff).
  apply diffuse_stdout in Hdiff as [k' ->]. exists (k + k').
  by rewrite Hk, replicate_add.
Qed.
End Output.

(** X15.  A call that returns gives back the graph it was given, and
    all it wrote is the warning about a missing weight, some number of
    times, followed by the warning about convergence exactly when the loop
    ended with [iters = 1000]. *)
Theorem X15_returned_graph_and_output
    {Node W : Type} `{EqDecision Node} `{Number W}
    (ext : Externals W) (graph : Graph Node W)
    (limit diff_range max_clusters iterations : Z) (fuel : nat)
    (out : Labelled Node W) :
  cluster_graph ext graph limit diff_range max_clusters iterations fuel = Returned out ->
  exists st k,
    manca_loop ext graph limit diff_range max_clusters iterations fuel (init graph)
      = Exited st
    /\ lg_graph out = graph
    /\ lg_stdout out
       = replicate k missing_weight_msg
         ++ (if (iters st =? 1000)%Z then [no_convergence_msg] else []).
Proof.
  unfold cluster_graph. intros Hcall.
  pose proof (while_loop_reaches limit iterations
                (manca_diffuse_select ext graph diff_range max_clusters)
                (manca_cluster_cut ext graph) fuel (init graph)) as Hreach.
  unfold manca_loop in *.
  destruct (while_loop _ _ _ _ fuel (init graph)) as [st|e|st]; [|done..].
  destruct (finish graph st) as [out'|e] eqn:Hfin; [|done].
  injection Hcall as ->. destruct Hreach as [Hrtc _].
  destruct (reachable_stdout ext graph limit diff_range max_clusters iterations
              st Hrtc) as [k Hk].
  exists st, k. split; [done|].
  rewrite (finish_stdout graph st out Hfin), Hk.
  unfold finish in Hfin. bind_inv Hfin as clusdict Hdict. injection Hfin as <-.
  split; [done|]. destruct (iters st =? 1000)%Z; [done|]. by rewrite app_nil_r.
Qed.

Lemma X15_returned_graph_and_output_witness :
  exists out st k,
    cluster_graph ext_split bridge_unweighted 100 1 2 1 5 = Returned out
    /\ manca_loop ext_split bridge_unweighted 100 1 2 1 5 (init bridge_unweighted)
       = Exited st
    /\ lg_graph out = bridge_unweighted
    /\ lg_stdout out
       = replicate k missing_weight_msg
         ++ (if (iters st =? 1000)%Z then [no_convergence_msg] else []).
Proof.
  eexists.
  assert (Hcall : cluster_graph ext_split bridge_unweighted 100 1 2 1 5 = Returned _)
    by (vm_compute; reflexivity).
  destruct (X15_returned_graph_and_output ext_split bridge_unweighted 100 1 2 1 5 _
              Hcall) as (st & k & Hrest).
  exists st, k. split; [exact Hcall | exact Hrest].
Defined.
